(** * A survey intake tool: the model of [main.py] and its properties

    The program reads questionnaires (age, gender, education, a yes/no
    answer) from the console, stores them in one SQLite table and prints
    three fixed counts.  This file embeds the program in Rocq:

    - Python strings are lists of Unicode code points;
    - the console is a list of lines still to be typed and a list of
      chunks already written;
    - the table [forms] is a list of rows with their [id];
    - functions that read, print, touch the database or raise are written
      in a small state and exception monad [io]. *)

From Stdlib Require Import ZArith NArith List Bool Lia String Ascii.
From Stdlib Require Import DecimalString Sorted Permutation.
Import ListNotations.

Set Implicit Arguments.
Local Open Scope Z_scope.

(* ================================================================== *)
(** ** Python strings *)
(* ================================================================== *)

(** A [str] is a sequence of code points. *)
Definition codepoint := N.
Definition str := list codepoint.

Definition bytes_of (s : string) : list N :=
  map N_of_ascii (list_ascii_of_string s).

(** Literals of this file are written in UTF-8; [utf8_decode] turns their
    bytes into code points (sequences of one to four bytes). *)
Fixpoint utf8_decode (bs : list N) : str :=
  match bs with
  | [] => []
  | b :: rest =>
      if (b <? 0x80)%N then b :: utf8_decode rest
      else if (b <? 0xE0)%N then
        match rest with
        | c1 :: r => ((b mod 0x20) * 0x40 + c1 mod 0x40)%N :: utf8_decode r
        | _ => []
        end
      else if (b <? 0xF0)%N then
        match rest with
        | c1 :: c2 :: r =>
            ((b mod 0x10) * 0x1000 + (c1 mod 0x40) * 0x40 + c2 mod 0x40)%N
              :: utf8_decode r
        | _ => []
        end
      else
        match rest with
        | c1 :: c2 :: c3 :: r =>
            ((b mod 8) * 0x40000 + (c1 mod 0x40) * 0x1000
             + (c2 mod 0x40) * 0x40 + c3 mod 0x40)%N :: utf8_decode r
        | _ => []
        end
  end.

Definition u (s : string) : str := utf8_decode (bytes_of s).
Arguments u s%_string.

(** [==] on strings. *)
Fixpoint str_eqb (a b : str) : bool :=
  match a, b with
  | [], [] => true
  | x :: a', y :: b' => (x =? y)%N && str_eqb a' b'
  | _, _ => false
  end.

(** [sep.join(parts)]. *)
Fixpoint join (sep : str) (parts : list str) : str :=
  match parts with
  | [] => []
  | [p] => p
  | p :: ps => p ++ sep ++ join sep ps
  end.

(** [str(n)] for an integer: decimal digits, with a minus sign when
    negative. *)
Definition str_of_Z (n : Z) : str :=
  map N_of_ascii (list_ascii_of_string (NilZero.string_of_int (Z.to_int n))).

(** The format specification [{x:>w}]: right-aligned in a field of [w]
    characters, padded with spaces; longer text is not cut. *)
Definition rjust (w : nat) (s : str) : str :=
  repeat 0x20%N (w - List.length s)%nat ++ s.

(** The quotation mark, for messages that contain one. *)
Definition quote : str := [0x22%N].

(* ------------------------------------------------------------------ *)
(** *** The builtins the program calls *)

(** [int(s)], [s.lower()] and [s.strip()] belong to the interpreter, not to
    the program.  The program is modelled over any implementation of them,
    so that what is proved about the readers does not depend on how the
    interpreter parses numbers or folds case.  [int_of s = None] stands for
    [int(s)] raising [ValueError]. *)
Class Builtins := {
  int_of : str -> option Z;
  lower : str -> str;
  strip : str -> str
}.

(** The interpreter's own implementation, as far as the program needs it.

    White space is what [str.isspace] accepts. *)
Definition is_space (c : codepoint) : bool :=
  ((0x09 <=? c) && (c <=? 0x0D) || (0x1C <=? c) && (c <=? 0x20)
   || (c =? 0x85) || (c =? 0xA0) || (c =? 0x1680)
   || (0x2000 <=? c) && (c <=? 0x200A)
   || (c =? 0x2028) || (c =? 0x2029) || (c =? 0x202F) || (c =? 0x205F)
   || (c =? 0x3000))%N.

Fixpoint lstrip (s : str) : str :=
  match s with
  | c :: rest => if is_space c then lstrip rest else s
  | [] => []
  end.

Definition cp_strip (s : str) : str := rev (lstrip (rev (lstrip s))).

(** Lower case, letter by letter, on Basic Latin and on the Cyrillic letters
    U+0400 to U+045F, the letters the program's tokens are made of.  Code
    points out of these ranges are left as they are, so that [cp_lower] is
    [str.lower] on strings of these two ranges only; it is applied to no
    other. *)
Definition lower_cp (c : codepoint) : codepoint :=
  if ((0x41 <=? c) && (c <=? 0x5A))%N then (c + 0x20)%N
  else if ((0x410 <=? c) && (c <=? 0x42F))%N then (c + 0x20)%N
  else if ((0x400 <=? c) && (c <=? 0x40F))%N then (c + 0x50)%N
  else c.

Definition cp_lower (s : str) : str := map lower_cp s.

(** What [int] consults and the program does not contain: the decimal
    digits of the Unicode database beyond ASCII (the digit that a code point
    stands for, when it stands for one) and the limit on the number of
    digits of a literal ([sys.get_int_max_str_digits()], 0 for no limit). *)
Record Interpreter := {
  decimal_of : codepoint -> option N;
  max_str_digits : Z
}.

(** The white space of the parser of [int]: of the ASCII characters only the
    tabulations, the line ends and the space (not U+001C to U+001F, which
    [strip] removes). *)
Definition is_ascii_space (c : codepoint) : bool :=
  ((0x09 <=? c) && (c <=? 0x0D) || (c =? 0x20))%N.

(** Before parsing, [int] turns a string into ASCII: a code point below 127
    stays; beyond, white space becomes a space, a decimal digit becomes its
    ASCII digit, and anything else a question mark, which no number
    contains. *)
Definition to_ascii (I : Interpreter) (c : codepoint) : codepoint :=
  if (c <? 127)%N then c
  else if is_space c then 0x20%N
  else
    match decimal_of I c with
    | Some d => (0x30 + d)%N
    | None => 0x3F%N
    end.

Fixpoint skip_spaces (s : str) : str :=
  match s with
  | c :: rest => if is_ascii_space c then skip_spaces rest else s
  | [] => []
  end.

(** What is left between the white space before and after. *)
Definition int_literal (s : str) : str :=
  rev (skip_spaces (rev (skip_spaces s))).

Definition digit_val (c : codepoint) : option Z :=
  if ((0x30 <=? c) && (c <=? 0x39))%N then Some (Z.of_N (c - 0x30)) else None.

(** Digits in base ten, with single underscores allowed between digits. *)
Fixpoint parse_digits (acc : Z) (after_digit : bool) (cs : str) : option Z :=
  match cs with
  | [] => if after_digit then Some acc else None
  | c :: rest =>
      if (c =? 0x5F)%N then
        if after_digit then parse_digits acc false rest else None
      else
        match digit_val c with
        | Some d => parse_digits (10 * acc + d) true rest
        | None => None
        end
  end.

Definition is_digit (c : codepoint) : bool :=
  ((0x30 <=? c) && (c <=? 0x39))%N.

(** The limit on the digits is looked at for literals of more than 640
    digits. *)
Definition too_long (I : Interpreter) (ds : str) : bool :=
  let n := Z.of_nat (List.length (filter is_digit ds)) in
  (640 <? n) && (0 <? max_str_digits I) && (max_str_digits I <? n).

Definition digits_of (I : Interpreter) (ds : str) : option Z :=
  match parse_digits 0 false ds with
  | Some n => if too_long I ds then None else Some n
  | None => None
  end.

(** [int(s)] for a string: white space around, an optional sign, then the
    digits; [None] is [ValueError]. *)
Definition cp_int (I : Interpreter) (s : str) : option Z :=
  match int_literal (map (to_ascii I) s) with
  | 0x2D%N :: ds => option_map Z.opp (digits_of I ds)
  | 0x2B%N :: ds => digits_of I ds
  | ds => digits_of I ds
  end.

Definition python (I : Interpreter) : Builtins :=
  {| int_of := cp_int I; lower := cp_lower; strip := cp_strip |}.

(** An interpreter to run the examples on.  Its table holds the decimal
    digits of four scripts (Arabic-Indic, Extended Arabic-Indic, Devanagari,
    fullwidth) and its limit is the default one.  The lines of the examples
    are made of Basic Latin and Cyrillic characters, for which the tables do
    not matter. *)
Definition example_interpreter : Interpreter :=
  {| decimal_of := fun c =>
       if ((0x660 <=? c) && (c <=? 0x669))%N then Some (c - 0x660)%N
       else if ((0x6F0 <=? c) && (c <=? 0x6F9))%N then Some (c - 0x6F0)%N
       else if ((0x966 <=? c) && (c <=? 0x96F))%N then Some (c - 0x966)%N
       else if ((0xFF10 <=? c) && (c <=? 0xFF19))%N then Some (c - 0xFF10)%N
       else None;
     max_str_digits := 4300 |}.

Definition cpython : Builtins := python example_interpreter.

(* ================================================================== *)
(** ** Enumerations and the data model *)
(* ================================================================== *)

(** A Python [Enum] class: its members in the order of definition (the
    order of iteration) and the value of each member. *)
Class PyEnum (E : Type) := {
  members : list E;
  value : E -> str
}.

Inductive Gender := MALE | FEMALE.

Inductive Education := PRIMARY | SECONDARY | HIGHER.

#[export] Instance Gender_enum : PyEnum Gender := {|
  members := [MALE; FEMALE];
  value := fun g => match g with MALE => u "м" | FEMALE => u "ж" end
|}.

#[export] Instance Education_enum : PyEnum Education := {|
  members := [PRIMARY; SECONDARY; HIGHER];
  value := fun e =>
    match e with
    | PRIMARY => u "н"
    | SECONDARY => u "с"
    | HIGHER => u "в"
    end
|}.

(** The dataclass [Form]. *)
Record Form := {
  age : Z;
  gender : Gender;
  education : Education;
  answer_yes : bool
}.

(** [int(b)] for a boolean. *)
Definition int_of_bool (b : bool) : Z := if b then 1 else 0.

(* ================================================================== *)
(** ** The database layer *)
(* ================================================================== *)

(** A row of [forms] without its [id]: the four values an [INSERT] binds
    and a [SELECT age, gender, education, answer_yes] returns.  The columns
    hold what [add_form] binds: an integer, two texts and an integer.  A
    file written by another program can hold values of other types (SQLite
    types values, not columns: a real age, or [NULL] in a table made with
    another schema); such files are not in the model. *)
Record row := {
  r_age : Z;
  r_gender : str;
  r_education : str;
  r_answer_yes : Z
}.

(** The table: the stored rows with their [id], in the order they were
    written, and the counter that [AUTOINCREMENT] keeps (the largest [id]
    ever given). *)
Record table := {
  forms : list (Z * row);
  sqlite_sequence : Z
}.

Definition empty_table : table := {| forms := []; sqlite_sequence := 0 |}.

(** [x IN (...)] for text. *)
Definition in_text (x : str) (l : list str) : bool :=
  existsb (str_eqb x) l.

(** The [CHECK] constraints of [SCHEMA_SQL]. *)
Definition check_row (r : row) : bool :=
  (0 <=? r_age r) && (r_age r <=? 120)
  && in_text (r_gender r) [u "м"; u "ж"]
  && in_text (r_education r) [u "н"; u "с"; u "в"]
  && ((r_answer_yes r =? 0) || (r_answer_yes r =? 1)).

Inductive exn :=
| EOFError            (* [input()] at the end of the input *)
| KeyError            (* a dictionary has no such key *)
| IntegrityError      (* a [CHECK] constraint failed *)
| OperationalError    (* no [id] is left for a new row *)
| OverflowError       (* an integer that does not fit in 64 bits is bound *)
| UnicodeEncodeError  (* a text that has no UTF-8 form is bound *)
| ProgrammingError.   (* the connection is closed *)

Inductive outcome (A : Type) :=
| Ok (a : A)
| Raise (e : exn).
Arguments Raise {A} e.

(** The largest [id] there is, [2 ^ 63 - 1]: an [id] has 64 bits, with a
    sign. *)
Definition max_rowid : Z := 9223372036854775807.

(** The [id] that [AUTOINCREMENT] gives to a new row: one more than the
    largest [id] of the table (1 when the table is empty), or one more than
    the largest ever given if that is more.  There is none once the largest
    possible [id] is in the table or has been given. *)
Definition next_id (t : table) : option Z :=
  let ids := map fst (forms t) in
  let after_rows :=
    match ids with
    | [] => 1
    | i :: rest => fold_right Z.max i rest + 1
    end in
  if existsb (fun i => max_rowid <=? i) ids || (max_rowid <=? sqlite_sequence t)
  then None
  else Some (Z.max after_rows (sqlite_sequence t + 1)).

(** [INSERT INTO forms(age, gender, education, answer_yes) VALUES (?,?,?,?)]:
    the statement fails when no [id] is left, and the row is refused when a
    constraint fails. *)
Definition insert_row (r : row) (t : table) : outcome table :=
  match next_id t with
  | None => Raise OperationalError
  | Some id =>
      if check_row r then
        Ok {| forms := forms t ++ [(id, r)]; sqlite_sequence := id |}
      else Raise IntegrityError
  end.

(** [ORDER BY id]: a stable insertion sort on the [id]. *)
Fixpoint insert_by_id (x : Z * row) (l : list (Z * row)) : list (Z * row) :=
  match l with
  | [] => [x]
  | y :: l' => if fst x <? fst y then x :: l else y :: insert_by_id x l'
  end.

Definition order_by_id (l : list (Z * row)) : list (Z * row) :=
  fold_left (fun acc x => insert_by_id x acc) l [].

(** [SELECT age, gender, education, answer_yes FROM forms ORDER BY id]. *)
Definition select_all (t : table) : list row :=
  map snd (order_by_id (forms t)).

(** The clauses the statistics use in their [WHERE]. *)
Inductive clause :=
| GenderIs (g : str)        (* gender = g *)
| AgeGt (n : Z)             (* age > n *)
| AgeLt (n : Z)             (* age < n *)
| EducationIs (e : str)     (* education = e *)
| AnswerYesIs (b : Z).      (* answer_yes = b *)

Definition holds (c : clause) (r : row) : bool :=
  match c with
  | GenderIs g => str_eqb (r_gender r) g
  | AgeGt n => n <? r_age r
  | AgeLt n => r_age r <? n
  | EducationIs e => str_eqb (r_education r) e
  | AnswerYesIs b => r_answer_yes r =? b
  end.

(** [c1 AND c2 AND ...]. *)
Definition where_all (cs : list clause) (r : row) : bool :=
  forallb (fun c => holds c r) cs.

(** [SELECT COUNT( * ) FROM forms WHERE ...]. *)
Definition count_where (cs : list clause) (t : table) : Z :=
  Z.of_nat (List.length (filter (where_all cs) (map snd (forms t)))).

(** The three queries of [show_stats]. *)
Definition men_40_yes : list clause :=
  [GenderIs (u "м"); AgeGt 40; EducationIs (u "в"); AnswerYesIs 1].

Definition women_30_no : list clause :=
  [GenderIs (u "ж"); AgeLt 30; EducationIs (u "с"); AnswerYesIs 0].

Definition men_25_yes : list clause :=
  [GenderIs (u "м"); AgeLt 25; EducationIs (u "н"); AnswerYesIs 1].

(* ================================================================== *)
(** ** The console, the connection and the monad *)
(* ================================================================== *)

(** A connection is closed, or open with its own view of the table (which
    holds the rows it has inserted and not yet committed). *)
Inductive connection :=
| Closed
| Open (view : table).

(** The world the program runs in: the lines the operator will still type,
    the chunks written so far, the committed table of the file
    [DataBase.db] ([None] while there is none) and the connection. *)
Record world := {
  stdin : list str;
  stdout : list str;
  database : option table;
  conn : connection
}.

Definition set_stdin (l : list str) (w : world) : world :=
  {| stdin := l; stdout := stdout w; database := database w; conn := conn w |}.

Definition write (s : str) (w : world) : world :=
  {| stdin := stdin w; stdout := stdout w ++ [s];
     database := database w; conn := conn w |}.

Definition set_database (d : option table) (w : world) : world :=
  {| stdin := stdin w; stdout := stdout w; database := d; conn := conn w |}.

Definition set_conn (c : connection) (w : world) : world :=
  {| stdin := stdin w; stdout := stdout w; database := database w; conn := c |}.

(** A computation returns a value or raises, and leaves a new world. *)
Definition io (A : Type) : Type := world -> outcome A * world.

Definition ret {A} (a : A) : io A := fun w => (Ok a, w).

Definition raise {A} (e : exn) : io A := fun w => (Raise e, w).

Definition bind {A B} (m : io A) (k : A -> io B) : io B :=
  fun w =>
    match m w with
    | (Ok a, w1) => k a w1
    | (Raise e, w1) => (Raise e, w1)
    end.

Notation "x <- m ;; k" := (bind m (fun x => k))
  (at level 61, m at next level, right associativity).
Notation "m ;; k" := (bind m (fun _ => k))
  (at level 61, right associativity).

Definition nl : str := [0x0A%N].

(** [print(s)]. *)
Definition print (s : str) : io unit :=
  fun w => (Ok tt, write (s ++ nl) w).

(** [input(prompt)]: the prompt is written, then a line is read; at the end
    of the input it raises [EOFError]. *)
Definition input (prompt : str) : io str :=
  fun w =>
    match stdin w with
    | [] => (Raise EOFError, write prompt w)
    | line :: rest => (Ok line, write prompt (set_stdin rest w))
    end.

(** What one round of a reader's [while True] does with the line it read:
    it returns a value, or prints a message and goes round again. *)
Inductive attempt (A : Type) :=
| Accept (a : A)
| Retry (msg : str).
Arguments Retry {A} msg.

(** [while True: line = input(prompt); <body>], by recursion on the lines
    that remain to be read. *)
Fixpoint until_valid {A} (prompt : str) (body : str -> attempt A)
    (lines : list str) (w : world) : outcome A * world :=
  match lines with
  | [] => (Raise EOFError, write prompt w)
  | line :: rest =>
      let w1 := write prompt (set_stdin rest w) in
      match body line with
      | Accept a => (Ok a, w1)
      | Retry msg => until_valid prompt body rest (write (msg ++ nl) w1)
      end
  end.

Definition reader {A} (prompt : str) (body : str -> attempt A) : io A :=
  fun w => until_valid prompt body (stdin w) w.

(* ================================================================== *)
(** ** The readers *)
(* ================================================================== *)

Section Readers.

Context {B : Builtins}.

Definition msg_range (lo hi : Z) : str :=
  u "Введите число от " ++ str_of_Z lo ++ u " до " ++ str_of_Z hi ++ u ".".

Definition msg_not_int : str := u "Ошибка: требуется целое число.".

(** The body of the loop of [read_int]. *)
Definition read_int_body (lo hi : Z) (line : str) : attempt Z :=
  match int_of line with
  | Some val =>
      if (lo <=? val) && (val <=? hi) then Accept val
      else Retry (msg_range lo hi)
  | None => Retry msg_not_int
  end.

Definition read_int (prompt : str) (lo hi : Z) : io Z :=
  reader prompt (read_int_body lo hi).

Definition msg_bad_input : str := u "Неверный ввод.".

(** The body of the loop of [read_enum]: the first member, in the order of
    the class, whose value is the lowered line. *)
Definition read_enum_body (E : Type) `{PyEnum E} (line : str) : attempt E :=
  let val := lower line in
  match find (fun e => str_eqb val (value e)) members with
  | Some e => Accept e
  | None => Retry msg_bad_input
  end.
Arguments read_enum_body E {_} line.

Definition read_enum (prompt : str) (E : Type) `{PyEnum E} : io E :=
  let opts := join (u "/") (map value members) in
  reader (prompt ++ u " (" ++ opts ++ u "): ") (read_enum_body E).
Arguments read_enum prompt E {_}.

Definition msg_yes_no : str :=
  u "Введите " ++ quote ++ u "д" ++ quote ++ u " или "
    ++ quote ++ u "н" ++ quote ++ u ".".

(** The body of the loop of [read_yes_no]. *)
Definition read_yes_no_body (line : str) : attempt bool :=
  let val := lower line in
  if in_text val [u "д"; u "н"] then Accept (str_eqb val (u "д"))
  else Retry msg_yes_no.

Definition read_yes_no (prompt : str) : io bool :=
  reader (prompt ++ u " (д/н): ") read_yes_no_body.

End Readers.

Arguments read_enum_body {B} E {_} line.
Arguments read_enum {B} prompt E {_}.

(* ================================================================== *)
(** ** Statements on the connection *)
(* ================================================================== *)

(** Binding the parameters of a statement, in their order: an integer must
    fit in 64 bits and a text must have a UTF-8 form (no surrogate, nothing
    beyond U+10FFFF). *)
Definition fits_int64 (z : Z) : bool :=
  (- 9223372036854775808 <=? z) && (z <=? 9223372036854775807).

Definition encodable (s : str) : bool :=
  forallb (fun c => ((c <? 0xD800) || (0xDFFF <? c)) && (c <=? 0x10FFFF))%N s.

Definition bind_error (params : row) : option exn :=
  if negb (fits_int64 (r_age params)) then Some OverflowError
  else if negb (encodable (r_gender params)) then Some UnicodeEncodeError
  else if negb (encodable (r_education params)) then Some UnicodeEncodeError
  else if negb (fits_int64 (r_answer_yes params)) then Some OverflowError
  else None.

(** [cur.execute('INSERT ...', params)]. *)
Definition execute_insert (params : row) : io unit :=
  fun w =>
    match conn w with
    | Closed => (Raise ProgrammingError, w)
    | Open t =>
        match bind_error params with
        | Some e => (Raise e, w)
        | None =>
            match insert_row params t with
            | Ok t' => (Ok tt, set_conn (Open t') w)
            | Raise e => (Raise e, w)
            end
        end
    end.

(** [cur.execute('SELECT ...').fetchall()] and [.fetchone()[0]]: a query
    reads the view of the connection. *)
Definition execute_select {A} (q : table -> A) : io A :=
  fun w =>
    match conn w with
    | Closed => (Raise ProgrammingError, w)
    | Open t => (Ok (q t), w)
    end.

(** [conn.commit()]: the view becomes the content of the file. *)
Definition commit : io unit :=
  fun w =>
    match conn w with
    | Closed => (Raise ProgrammingError, w)
    | Open t => (Ok tt, set_database (Some t) w)
    end.

(** [conn.close()]: what was not committed is lost. *)
Definition close : io unit :=
  fun w => (Ok tt, set_conn Closed w).

(** [open_db]: connect, create the table if there is none, commit. *)
Definition open_db : io unit :=
  fun w =>
    let t := match database w with Some t => t | None => empty_table end in
    (Ok tt, set_conn (Open t) (set_database (Some t) w)).

(* ================================================================== *)
(** ** The operations of the menu *)
(* ================================================================== *)

Section Program.

Context {B : Builtins}.

(** The tuple of parameters that [add_form] binds. *)
Definition params (f : Form) : row :=
  {| r_age := age f;
     r_gender := value (gender f);
     r_education := value (education f);
     r_answer_yes := int_of_bool (answer_yes f) |}.

(** The four questions of [add_form]. *)
Definition read_form : io Form :=
  age <- read_int (u "Возраст: ") 0 120 ;;
  gender <- read_enum (u "Пол") Gender ;;
  education <-
    read_enum (u "Образование – н-начальное, с-среднее, в-высшее") Education ;;
  answer <- read_yes_no (u "Вы ежегодно делаете прививку от гриппа?") ;;
  ret {| age := age; gender := gender; education := education;
         answer_yes := answer |}.

Definition add_form : io unit :=
  f <- read_form ;;
  execute_insert (params f) ;;
  print (u "Спасибо, анкета добавлена!").

Definition gender_ru (g : str) : str :=
  if str_eqb g (u "м") then u "муж" else u "жен".

(** The dictionary of [list_forms]; [None] is [KeyError]. *)
Definition edu_ru (e : str) : option str :=
  if str_eqb e (u "н") then Some (u "нач")
  else if str_eqb e (u "с") then Some (u "сред")
  else if str_eqb e (u "в") then Some (u "высш")
  else None.

Definition answer_ru (ans : Z) : str :=
  if ans =? 0 then u "НЕТ" else u "ДА".

(** One line of the listing. *)
Definition form_line (idx : Z) (r : row) : outcome str :=
  match edu_ru (r_education r) with
  | None => Raise KeyError
  | Some edu =>
      Ok (rjust 2 (str_of_Z idx) ++ u ") " ++ rjust 3 (str_of_Z (r_age r))
          ++ u " лет, " ++ gender_ru (r_gender r) ++ u ", " ++ edu
          ++ u ", ответ=" ++ answer_ru (r_answer_yes r))
  end.

(** [for idx, (...) in enumerate(rows, idx): print(...)]. *)
Fixpoint print_forms (idx : Z) (rows : list row) : io unit :=
  match rows with
  | [] => ret tt
  | r :: rest =>
      match form_line idx r with
      | Raise e => raise e
      | Ok line => print line ;; print_forms (idx + 1) rest
      end
  end.

Definition list_forms : io unit :=
  rows <- execute_select select_all ;;
  match rows with
  | [] => print (u "Список анкет пуст.")
  | _ =>
      print (nl ++ u "--- Все анкеты ---") ;;
      print_forms 1 rows ;;
      print (u "------------------")
  end.

Definition show_stats : io unit :=
  a <- execute_select (count_where men_40_yes) ;;
  b <- execute_select (count_where women_30_no) ;;
  c <- execute_select (count_where men_25_yes) ;;
  print (nl ++ u "--- Статистика ---") ;;
  print (u "Мужчин старше 40 с высшим образованием и ответом ДА : "
           ++ str_of_Z a) ;;
  print (u "Женщин моложе 30 со средним образованием и ответом НЕТ: "
           ++ str_of_Z b) ;;
  print (u "Мужчин моложе 25 с начальным образованием и ответом ДА: "
           ++ str_of_Z c) ;;
  print (u "------------------").

Definition menu : io str :=
  print (nl ++ u "Меню:") ;;
  print (u "1 – Добавить анкету") ;;
  print (u "2 – Показать все анкеты") ;;
  print (u "3 – Показать статистику") ;;
  print (u "0 – Выход") ;;
  line <- input (u "Выбор: ") ;;
  ret (strip line).

(** The loop of [main] is running, or has been left by [break]. *)
Inductive state := Running | Exited.

(** The body of the loop after the choice is read. *)
Definition dispatch (choice : str) : io state :=
  if str_eqb choice (u "1") then add_form ;; commit ;; ret Running
  else if str_eqb choice (u "2") then list_forms ;; ret Running
  else if str_eqb choice (u "3") then show_stats ;; ret Running
  else if str_eqb choice (u "0") then ret Exited
  else print (u "Нет такого пункта.") ;; ret Running.

(** One turn of the loop. *)
Definition turn : io state :=
  choice <- menu ;;
  dispatch choice.

(** [while True: ...].  Every turn reads at least one line, so the loop is
    over, by [break] or by an exception, within as many turns as there are
    lines and one more; [fuel] bounds the number of turns and [None] is
    running out of it. *)
Fixpoint main_loop (fuel : nat) (w : world) : option (outcome unit * world) :=
  match fuel with
  | O => None
  | S fuel' =>
      match turn w with
      | (Raise e, w1) => Some (Raise e, w1)
      | (Ok Exited, w1) => Some (Ok tt, w1)
      | (Ok Running, w1) => main_loop fuel' w1
      end
  end.

(** [finally: conn.close(); print(...)], run however the [try] block was
    left; the exception of the block, if any, goes on after it. *)
Definition finally_close (r : outcome unit) : io unit :=
  close ;;
  print (u "До свидания!") ;;
  (fun w => (r, w)).

Definition main (w : world) : option (outcome unit * world) :=
  match open_db w with
  | (Raise e, w0) => Some (Raise e, w0)
  | (Ok _, w0) =>
      match main_loop (S (List.length (stdin w0))) w0 with
      | None => None
      | Some (r, w1) => Some (finally_close r w1)
      end
  end.

End Program.

Arguments u : simpl never.

(* ================================================================== *)
(** ** Notions used to state the properties *)
(* ================================================================== *)

(** A sequence of [INSERT] statements, stopped by the first that fails. *)
Fixpoint insert_all (rs : list row) (t : table) : outcome table :=
  match rs with
  | [] => Ok t
  | r :: rest =>
      match insert_row r t with
      | Ok t' => insert_all rest t'
      | Raise e => Raise e
      end
  end.

(** An [id] is left for a new row. *)
Definition has_room (t : table) : Prop := next_id t <> None.

(** The two records of the scenarios. *)
Definition man_45 : Form :=
  {| age := 45; gender := MALE; education := HIGHER; answer_yes := true |}.

Definition woman_20 : Form :=
  {| age := 20; gender := FEMALE; education := SECONDARY; answer_yes := false |}.

(** A table whose last row has the largest [id] there is, and a run in
    progress on it. *)
Definition full_table : table :=
  {| forms := [(max_rowid,
                {| r_age := 20; r_gender := u "ж"; r_education := u "с";
                   r_answer_yes := 0 |})];
     sqlite_sequence := max_rowid |}.

Definition full_session (lines : list str) : world :=
  {| stdin := lines; stdout := []; database := Some full_table;
     conn := Open full_table |}.

(** The line of the listing for a record, as the format of [list_forms]
    spells it: the number on two columns, the age on three, then the words
    for the gender, the education and the answer. *)
Definition shown_line (idx : Z) (f : Form) : str :=
  rjust 2 (str_of_Z idx) ++ u ") " ++ rjust 3 (str_of_Z (age f)) ++ u " лет, "
    ++ match gender f with MALE => u "муж" | FEMALE => u "жен" end
    ++ u ", "
    ++ match education f with
       | PRIMARY => u "нач"
       | SECONDARY => u "сред"
       | HIGHER => u "высш"
       end
    ++ u ", ответ=" ++ (if answer_yes f then u "ДА" else u "НЕТ").

Fixpoint shown_lines (idx : Z) (fs : list Form) : list str :=
  match fs with
  | [] => []
  | f :: rest => (shown_line idx f ++ nl) :: shown_lines (idx + 1) rest
  end.

(** The records that each statistic is about, by their fields. *)
Definition man_over_40_higher_yes (r : row) : Prop :=
  r_gender r = u "м" /\ 40 < r_age r /\ r_education r = u "в"
  /\ r_answer_yes r = 1.

Definition woman_under_30_secondary_no (r : row) : Prop :=
  r_gender r = u "ж" /\ r_age r < 30 /\ r_education r = u "с"
  /\ r_answer_yes r = 0.

Definition man_under_25_primary_yes (r : row) : Prop :=
  r_gender r = u "м" /\ r_age r < 25 /\ r_education r = u "н"
  /\ r_answer_yes r = 1.

(** The query [q] counts the rows that are [P]: a row passes its [WHERE]
    when it is [P], and inserting a row that the table admits, while an [id]
    is left, adds one to the count when the row is [P] and leaves the count
    as it was when the row is not. *)
Definition counts_those (q : list clause) (P : row -> Prop) : Prop :=
  (forall r, where_all q r = true <-> P r)
  /\ (forall t r,
        has_room t -> check_row r = true ->
        exists t',
          insert_row r t = Ok t'
          /\ (P r -> count_where q t' = count_where q t + 1)
          /\ (~ P r -> count_where q t' = count_where q t)).

(** A database file written by another program, with a row that the
    constraints of [SCHEMA_SQL] would have refused. *)
Definition foreign_table : table :=
  {| forms := [(1, {| r_age := 30; r_gender := u "м"; r_education := u "x";
                      r_answer_yes := 1 |})];
     sqlite_sequence := 1 |}.

(** A run in progress on that file: the lines to be typed, the connection
    open. *)
Definition foreign_session (lines : list str) : world :=
  {| stdin := lines; stdout := []; database := Some foreign_table;
     conn := Open foreign_table |}.

(** Every row of the table satisfies the constraints, as is the case when
    the rows were inserted through them. *)
Definition table_ok (t : table) : Prop :=
  Forall (fun r => check_row r = true) (map snd (forms t)).

(** What the loop of [list_forms] writes for rows that it can print,
    numbered from [idx]. *)
Fixpoint listing (idx : Z) (rows : list row) : list str :=
  match rows with
  | [] => []
  | r :: rest =>
      match form_line idx r with
      | Ok line => (line ++ nl) :: listing (idx + 1) rest
      | Raise _ => []
      end
  end.

(** The order of [ORDER BY id]. *)
Definition by_id (x y : Z * row) : Prop := fst x <= fst y.

(** The age of a [Form] is in the domain of the questionnaire. *)
Definition valid (f : Form) : Prop := 0 <= age f <= 120.

(** A round of a reader refuses a line: it prints and asks again. *)
Definition refused {A} (body : str -> attempt A) (line : str) : Prop :=
  exists msg, body line = Retry msg.

(** What a reader has written when it asked, was given the lines [skipped],
    refused each of them, and asked once more. *)
Fixpoint asked {A} (prompt : str) (body : str -> attempt A)
    (skipped : list str) : list str :=
  match skipped with
  | [] => [prompt]
  | line :: rest =>
      match body line with
      | Retry msg => prompt :: (msg ++ nl) :: asked prompt body rest
      | Accept _ => [prompt]
      end
  end.

(** A console session on a fresh machine: the lines to be typed, nothing
    written, no database file, no connection. *)
Definition session (lines : list str) : world :=
  {| stdin := lines; stdout := []; database := None; conn := Closed |}.

Definition is_open (c : connection) : Prop :=
  match c with
  | Open _ => True
  | Closed => False
  end.

(** Two strings are the same, letter case apart. *)
Definition same_letters {B : Builtins} (a b : str) : Prop :=
  lower a = lower b.

(** [w'] comes after [w] in a run: lines have been read, chunks have been
    written, and an open connection has stayed open. *)
Definition after (w w' : world) : Prop :=
  (exists read, stdin w = read ++ stdin w')
  /\ (exists written, stdout w' = stdout w ++ written)
  /\ (is_open (conn w) -> is_open (conn w')).

(** A computation that only reads lines, writes chunks and keeps an open
    connection open, however it ends. *)
Definition steady {A} (m : io A) : Prop :=
  forall w r w', m w = (r, w') -> after w w'.

(** The table of the file, empty while there is no file. *)
Definition stored (w : world) : table :=
  match database w with
  | Some t => t
  | None => empty_table
  end.

(** The connection is open and has nothing to commit: its view [t] is the
    content of the file. *)
Definition synced (w : world) (t : table) : Prop :=
  conn w = Open t /\ database w = Some t.

(** A row whose education code is a key of the dictionary of
    [list_forms]. *)
Definition printable (r : row) : bool :=
  match edu_ru (r_education r) with
  | Some _ => true
  | None => false
  end.

(** A computation that does nothing but write: the lines to read, the file
    and the connection are as they were, however it ends. *)
Definition quiet {A} (m : io A) : Prop :=
  forall w r w',
    m w = (r, w') ->
    stdin w' = stdin w
    /\ database w' = database w
    /\ conn w' = conn w
    /\ exists written, stdout w' = stdout w ++ written.

(** A reader with the loop body [body] raises exactly when it refuses every
    line that is left, and then it raises [EOFError] with all the lines
    read, the file and the connection untouched. *)
Definition stops_at_end {A} (m : io A) (body : str -> attempt A) : Prop :=
  forall w,
    ((exists e w', m w = (Raise e, w')) <-> Forall (refused body) (stdin w))
    /\ (forall e w',
          m w = (Raise e, w') ->
          e = EOFError
          /\ stdin w' = []
          /\ database w' = database w
          /\ conn w' = conn w).

(** [core] is [s] without the white space around it: what was before and
    after is white space, and [core] neither starts nor ends with white
    space. *)
Definition stripped_of (s core : str) : Prop :=
  (exists before after,
      s = before ++ core ++ after
      /\ forallb is_space before = true
      /\ forallb is_space after = true)
  /\ (forall c rest, core = c :: rest -> is_space c = false)
  /\ (forall init c, core = init ++ [c] -> is_space c = false).

(** The white space that the parsing of integers ignores: the ASCII white
    space of the parser, and the white space beyond ASCII, which is turned
    into a space first. *)
Definition int_space (c : codepoint) : bool :=
  if (c <? 127)%N then is_ascii_space c else is_space c.

(** The ages of the domain, and the column of the listing for an age. *)
Definition ages : list Z := map Z.of_nat (seq 0 121).

Definition age_column (a : Z) : str := rjust 3 (str_of_Z a).

(** The part of a line of the listing that follows the number of the
    line. *)
Definition line_tail (r : row) (edu : str) : str :=
  rjust 3 (str_of_Z (r_age r)) ++ u " лет, " ++ gender_ru (r_gender r)
    ++ u ", " ++ edu ++ u ", ответ=" ++ answer_ru (r_answer_yes r).

(* ================================================================== *)
(** ** Strings *)
(* ================================================================== *)

Lemma str_eqb_eq (a b : str) : str_eqb a b = true <-> a = b.
Proof.
  revert b; induction a as [|x a IH]; intros [|y b]; simpl;
    try (split; [discriminate | congruence]); [tauto |].
  rewrite andb_true_iff, N.eqb_eq, IH.
  split; [intros [-> ->]; reflexivity | intros [= -> ->]; auto].
Qed.

Lemma str_eqb_spec (a b : str) : reflect (a = b) (str_eqb a b).
Proof. apply iff_reflect; symmetry; apply str_eqb_eq. Qed.

Lemma str_eqb_refl (a : str) : str_eqb a a = true.
Proof. apply str_eqb_eq; reflexivity. Qed.

Lemma in_text_In (x : str) (l : list str) : in_text x l = true <-> In x l.
Proof.
  unfold in_text; rewrite existsb_exists; split.
  - intros (y & Hy & E); apply str_eqb_eq in E; subst; assumption.
  - intros Hx; exists x; split; [assumption | apply str_eqb_refl].
Qed.

(* ================================================================== *)
(** ** The loop of the readers *)
(* ================================================================== *)

Section ReaderLoop.

Variable A : Type.
Variable prompt : str.
Variable body : str -> attempt A.

(** A reader that returns has refused some lines, accepted the next one and
    left the rest unread; it has written its prompt before each line and its
    message after each refusal, and has not touched the database. *)
Lemma until_valid_ok (lines : list str) :
  forall w a w',
    until_valid prompt body lines w = (Ok a, w') ->
    exists skipped line,
      lines = skipped ++ line :: stdin w'
      /\ Forall (refused body) skipped
      /\ body line = Accept a
      /\ stdout w' = stdout w ++ asked prompt body skipped
      /\ database w' = database w
      /\ conn w' = conn w.
Proof.
  induction lines as [|l rest IH]; intros w a w' E; simpl in E.
  - discriminate.
  - destruct (body l) as [a0|msg] eqn:Hb.
    + injection E as <- <-.
      exists [], l; simpl; auto 10.
    + apply IH in E as (skipped & line & -> & Hs & Ha & Ho & Hd & Hc).
      exists (l :: skipped), line; simpl in *.
      rewrite Hb, Ho, <- !app_assoc; simpl.
      repeat split; auto.
      constructor; [exists msg; assumption | assumption].
Qed.

(** The only exception of a reader is the end of the input, met after every
    line has been refused. *)
Lemma until_valid_raise (lines : list str) :
  forall w e w',
    stdin w = lines ->
    until_valid prompt body lines w = (Raise e, w') ->
    e = EOFError
    /\ Forall (refused body) lines
    /\ stdin w' = []
    /\ stdout w' = stdout w ++ asked prompt body lines
    /\ database w' = database w
    /\ conn w' = conn w.
Proof.
  induction lines as [|l rest IH]; intros w e w' Hw E; simpl in E.
  - injection E as <- <-; simpl; auto 10.
  - destruct (body l) as [a0|msg] eqn:Hb; [discriminate |].
    apply IH in E as (-> & Hs & Hi & Ho & Hd & Hc); [| reflexivity].
    simpl in *; rewrite Hb, Ho, <- !app_assoc; simpl.
    repeat split; auto.
    constructor; [exists msg; assumption | assumption].
Qed.

Lemma reader_ok (w : world) (a : A) (w' : world) :
  reader prompt body w = (Ok a, w') ->
  exists skipped line,
    stdin w = skipped ++ line :: stdin w'
    /\ Forall (refused body) skipped
    /\ body line = Accept a
    /\ stdout w' = stdout w ++ asked prompt body skipped
    /\ database w' = database w
    /\ conn w' = conn w.
Proof. apply until_valid_ok. Qed.

Lemma reader_raise (w : world) (e : exn) (w' : world) :
  reader prompt body w = (Raise e, w') ->
  e = EOFError
  /\ Forall (refused body) (stdin w)
  /\ stdin w' = []
  /\ stdout w' = stdout w ++ asked prompt body (stdin w)
  /\ database w' = database w
  /\ conn w' = conn w.
Proof. apply until_valid_raise; reflexivity. Qed.

(** Asking again: after a refused line the reader is where it started, with
    one line less to read and its prompt and message written. *)
Lemma reader_retry (w : world) (line : str) (rest : list str) (msg : str) :
  stdin w = line :: rest ->
  body line = Retry msg ->
  reader prompt body w
  = reader prompt body (write (msg ++ nl) (write prompt (set_stdin rest w))).
Proof.
  intros Hw Hb; unfold reader; rewrite Hw; simpl; rewrite Hb; reflexivity.
Qed.

Lemma reader_unfold (w : world) :
  reader prompt body w
  = match stdin w with
    | [] => (Raise EOFError, write prompt w)
    | line :: rest =>
        match body line with
        | Accept a => (Ok a, write prompt (set_stdin rest w))
        | Retry msg =>
            reader prompt body
              (write (msg ++ nl) (write prompt (set_stdin rest w)))
        end
    end.
Proof. unfold reader; destruct (stdin w); reflexivity. Qed.

Lemma reader_accept (w : world) (line : str) (rest : list str) (a : A) :
  stdin w = line :: rest ->
  body line = Accept a ->
  reader prompt body w = (Ok a, write prompt (set_stdin rest w)).
Proof.
  intros Hw Hb; unfold reader; rewrite Hw; simpl; rewrite Hb; reflexivity.
Qed.

(** A reader returns as soon as a line is accepted: given lines that it
    refuses and then one that it accepts, it returns what that line stands
    for and leaves the rest unread. *)
Lemma reader_returns (skipped : list str) (line : str) (rest : list str)
    (a : A) :
  Forall (refused body) skipped ->
  body line = Accept a ->
  forall w,
    stdin w = skipped ++ line :: rest ->
    exists w',
      reader prompt body w = (Ok a, w')
      /\ stdin w' = rest
      /\ stdout w' = stdout w ++ asked prompt body skipped
      /\ database w' = database w
      /\ conn w' = conn w.
Proof.
  intros Hs Ha; induction Hs as [|l skipped [msg Hl] Hs IH]; intros w Hw.
  - rewrite reader_unfold, Hw; simpl; rewrite Ha.
    eexists; split; [reflexivity |]; simpl; auto.
  - rewrite reader_unfold, Hw; simpl; rewrite Hl.
    destruct (IH (write (msg ++ nl) (write prompt (set_stdin (skipped ++ line :: rest) w))))
      as (w' & -> & Hi & Ho & Hd & Hc); [reflexivity |].
    exists w'; split; [reflexivity |].
    cbn [stdout stdin database conn write set_stdin] in *.
    rewrite Ho, <- !app_assoc; simpl; auto.
Qed.

End ReaderLoop.

(* ================================================================== *)
(** ** The bounded integer reader *)
(* ================================================================== *)


Section ReadInt.

Context {B : Builtins}.
Variables lo hi : Z.

Lemma read_int_body_accept (line : str) (n : Z) :
  read_int_body lo hi line = Accept n <-> int_of line = Some n /\ lo <= n <= hi.
Proof.
  unfold read_int_body.
  destruct (int_of line) as [val|]; [| split; [discriminate | intros [[=] _]]].
  destruct (lo <=? val) eqn:Hlo, (val <=? hi) eqn:Hhi; simpl;
    (split; [intros [= <-] | intros [[= <-] Hr]]); try (split; [reflexivity |]);
    try reflexivity; lia.
Qed.




End ReadInt.



(* ================================================================== *)
(** ** The reader of an enumeration *)
(* ================================================================== *)

Lemma NoDup_map_injective (X Y : Type) (f : X -> Y) (l : list X) :
  NoDup (map f l) ->
  forall a b, In a l -> In b l -> f a = f b -> a = b.
Proof.
  induction l as [|x l IH]; simpl; intros Hn a b Ha Hb E; [contradiction |].
  inversion Hn as [|? ? Hx Hl]; subst.
  destruct Ha as [<- | Ha], Hb as [<- | Hb]; auto.
  - exfalso; apply Hx; rewrite E; apply in_map; assumption.
  - exfalso; apply Hx; rewrite <- E; apply in_map; assumption.
Qed.

Section ReadEnum.

Context {B : Builtins} (E : Type) `{PyEnum E}.

(** The tokens of the class are in lower case, and no two members share a
    token. *)
Hypothesis tokens_lower : forall e, In e members -> lower (value e) = value e.
Hypothesis tokens_distinct : NoDup (map value members).

Lemma read_enum_body_accept (line : str) (e : E) :
  read_enum_body E line = Accept e
  <-> In e members /\ same_letters line (value e).
Proof.
  unfold read_enum_body, same_letters.
  destruct (find _ members) as [e0|] eqn:F.
  - apply find_some in F as [Hin Heq]; apply str_eqb_eq in Heq.
    split.
    + intros [= <-]; split; [assumption |].
      rewrite tokens_lower by assumption; assumption.
    + intros [Hin' Hl]; rewrite tokens_lower in Hl by assumption.
      f_equal; apply (NoDup_map_injective value members); auto; congruence.
  - split; [discriminate |].
    intros [Hin Hl]; rewrite tokens_lower in Hl by assumption.
    apply (find_none _ _ F) in Hin.
    rewrite Hl, str_eqb_refl in Hin; discriminate.
Qed.

Lemma read_enum_body_retry (line : str) (msg : str) :
  read_enum_body E line = Retry msg ->
  msg = msg_bad_input.
Proof.
  unfold read_enum_body; destruct (find _ members); congruence.
Qed.

Lemma read_enum_body_refused (line : str) :
  refused (read_enum_body E) line
  <-> forall e, In e members -> ~ same_letters line (value e).
Proof.
  split.
  - intros (msg & Hr) e Hin Hl.
    assert (Ha : read_enum_body E line = Accept e)
      by (apply read_enum_body_accept; auto).
    congruence.
  - intros Hno; destruct (read_enum_body E line) as [e|msg] eqn:Hb.
    + apply read_enum_body_accept in Hb as [Hin Hl].
      exfalso; exact (Hno e Hin Hl).
    + exists msg; exact Hb.
Qed.

End ReadEnum.

(** C5. For an enumeration whose tokens are in lower case, [read_enum]
    accepts a line exactly when it is, letter case apart, the token of a
    member, and then returns that member; any other line is answered with a
    message and the reader asks again.  So the reader returns the member of
    the first line that is a token, letter case apart, and leaves the lines
    after it unread; and when it returns, that is what happened. *)
Theorem read_enum_case_insensitive {B : Builtins} (E : Type) `{PyEnum E}
    (prompt : str) :
  (forall e, In e members -> lower (value e) = value e) ->
  NoDup (map value members) ->
  (forall line e,
      read_enum_body E line = Accept e
      <-> In e members /\ same_letters line (value e))
  /\ (forall line,
        refused (read_enum_body E) line
        <-> forall e, In e members -> ~ same_letters line (value e))
  /\ (forall w line rest msg,
        stdin w = line :: rest ->
        read_enum_body E line = Retry msg ->
        msg = msg_bad_input
        /\ read_enum prompt E w
           = read_enum prompt E
               (write (msg ++ nl)
                  (write (prompt ++ u " (" ++ join (u "/") (map value members)
                                 ++ u "): ")
                     (set_stdin rest w))))
  /\ (forall w e w',
        read_enum prompt E w = (Ok e, w') ->
        In e members
        /\ exists skipped line,
            stdin w = skipped ++ line :: stdin w'
            /\ same_letters line (value e)
            /\ Forall (fun l => forall e', In e' members ->
                                 ~ same_letters l (value e')) skipped)
  /\ (forall w skipped line rest e,
        stdin w = skipped ++ line :: rest ->
        Forall (fun l => forall e', In e' members ->
                           ~ same_letters l (value e')) skipped ->
        In e members -> same_letters line (value e) ->
        exists w',
          read_enum prompt E w = (Ok e, w')
          /\ stdin w' = rest).
Proof.
  intros Hlow Hdup.
  split; [intros line e; apply read_enum_body_accept; assumption |].
  split; [intros line; apply read_enum_body_refused; assumption |].
  split; [| split].
  - intros w line rest msg Hw Hb; split.
    + eapply read_enum_body_retry; eassumption.
    + unfold read_enum; apply reader_retry with (line := line); assumption.
  - intros w e w' Hr.
    apply reader_ok in Hr as (skipped & line & Hin & Hs & Ha & _).
    apply read_enum_body_accept in Ha as [Hm Hl]; try assumption.
    split; [assumption |].
    exists skipped, line; repeat split; try assumption.
    eapply Forall_impl; [| exact Hs].
    intros l Hl'; apply (proj1 (read_enum_body_refused Hlow Hdup l)); assumption.
  - intros w skipped line rest e Hw Hs Hin Hl.
    assert (Ha : read_enum_body E line = Accept e)
      by (apply read_enum_body_accept; auto).
    assert (Hr : Forall (refused (read_enum_body E)) skipped).
    { eapply Forall_impl; [| exact Hs].
      intros l Hno; apply read_enum_body_refused; assumption. }
    destruct (@reader_returns _
                (prompt ++ u " (" ++ join (u "/") (map value members) ++ u "): ")
                _ skipped line rest e Hr Ha w Hw)
      as (w' & Er & Hi & _).
    exists w'; split; [exact Er | exact Hi].
Qed.

(** Both enumerations of the program have distinct tokens in lower case. *)
Lemma Gender_tokens :
  (forall g : Gender, In g members -> lower (Builtins := cpython) (value g) = value g)
  /\ NoDup (map value (members (E := Gender))).
Proof.
  split.
  - intros [] _; vm_compute; reflexivity.
  - vm_compute; repeat constructor; simpl; intuition discriminate.
Qed.

Lemma Education_tokens :
  (forall e : Education,
      In e members -> lower (Builtins := cpython) (value e) = value e)
  /\ NoDup (map value (members (E := Education))).
Proof.
  split.
  - intros [] _; vm_compute; reflexivity.
  - vm_compute; repeat constructor; simpl; intuition discriminate.
Qed.

Lemma read_enum_case_insensitive_witness :
  read_enum_body (B := cpython) Gender (u "М") = Accept MALE
  /\ refused (read_enum_body (B := cpython) Education) (u "x")
  /\ exists w',
      read_enum (B := cpython) (u "Пол") Gender
        (session [u "x"; u " м"; u "Ж"; u "в"])
      = (Ok FEMALE, w')
      /\ stdin w' = [u "в"].
Proof.
  split; [| split].
  - apply (proj1 (read_enum_case_insensitive (B := cpython) (E := Gender) (u "Пол")
                    (proj1 Gender_tokens) (proj2 Gender_tokens))).
    split; [simpl; auto | vm_compute; reflexivity].
  - apply (proj1 (proj2 (read_enum_case_insensitive (B := cpython)
                           (E := Education) (u "Образование") (proj1 Education_tokens)
                           (proj2 Education_tokens)))).
    intros [] _; vm_compute; discriminate.
  - apply (proj2 (proj2 (proj2 (proj2
             (read_enum_case_insensitive (B := cpython) (E := Gender) (u "Пол")
                (proj1 Gender_tokens) (proj2 Gender_tokens)))))
             (session [u "x"; u " м"; u "Ж"; u "в"]) [u "x"; u " м"] (u "Ж"));
      [reflexivity | | simpl; auto | vm_compute; reflexivity].
    repeat constructor; intros [] _; vm_compute; discriminate.
Defined.

(* ================================================================== *)
(** ** The yes/no reader *)
(* ================================================================== *)

Lemma yes_is_not_no : u "д" <> u "н".
Proof. vm_compute; discriminate. Qed.

Section ReadYesNo.

Context {B : Builtins}.

Lemma read_yes_no_body_true (line : str) :
  read_yes_no_body line = Accept true <-> lower line = u "д".
Proof.
  unfold read_yes_no_body, in_text; simpl.
  destruct (str_eqb_spec (lower line) (u "д")) as [E|E]; simpl.
  - tauto.
  - destruct (str_eqb (lower line) (u "н")); simpl;
      split; intros; try discriminate; contradiction.
Qed.

Lemma read_yes_no_body_false (line : str) :
  read_yes_no_body line = Accept false <-> lower line = u "н".
Proof.
  unfold read_yes_no_body, in_text; simpl.
  destruct (str_eqb_spec (lower line) (u "д")) as [E|E]; simpl.
  - split; [discriminate |].
    intros E'; rewrite E in E'; exfalso; exact (yes_is_not_no E').
  - destruct (str_eqb_spec (lower line) (u "н")); simpl;
      split; intros; try discriminate; try contradiction; auto.
Qed.

Lemma read_yes_no_body_retry (line : str) (msg : str) :
  read_yes_no_body line = Retry msg -> msg = msg_yes_no.
Proof.
  unfold read_yes_no_body; destruct (in_text _ _); congruence.
Qed.

Lemma read_yes_no_body_refused (line : str) :
  refused read_yes_no_body line
  <-> lower line <> u "д" /\ lower line <> u "н".
Proof.
  split.
  - intros (msg & Hr); split; intros E.
    + apply read_yes_no_body_true in E; congruence.
    + apply read_yes_no_body_false in E; congruence.
  - intros [Hy Hn]; destruct (read_yes_no_body line) as [[|]|msg] eqn:Hb.
    + apply read_yes_no_body_true in Hb; contradiction.
    + apply read_yes_no_body_false in Hb; contradiction.
    + exists msg; exact Hb.
Qed.

End ReadYesNo.

(** C6, as the code has it.  [read_yes_no] accepts a line exactly when its
    lower-case form is one of two tokens; it returns true for the first and
    false for the second.  Any other line is answered with a message, the
    reader asks again, and such a line is never returned as a boolean.  So
    the reader returns the boolean of the first line whose lower-case form
    is a token and leaves the lines after it unread; and when it returns,
    that is what happened. *)
Theorem read_yes_no_two_tokens {B : Builtins} (prompt : str) :
  (forall line, read_yes_no_body line = Accept true <-> lower line = u "д")
  /\ (forall line, read_yes_no_body line = Accept false <-> lower line = u "н")
  /\ (forall line,
        refused read_yes_no_body line
        <-> lower line <> u "д" /\ lower line <> u "н")
  /\ (forall w line rest msg,
        stdin w = line :: rest ->
        read_yes_no_body line = Retry msg ->
        msg = msg_yes_no
        /\ read_yes_no prompt w
           = read_yes_no prompt
               (write (msg ++ nl)
                  (write (prompt ++ u " (д/н): ") (set_stdin rest w))))
  /\ (forall w b w',
        read_yes_no prompt w = (Ok b, w') ->
        exists skipped line,
          stdin w = skipped ++ line :: stdin w'
          /\ lower line = (if b then u "д" else u "н")
          /\ Forall (fun l => lower l <> u "д" /\ lower l <> u "н") skipped)
  /\ (forall w skipped line rest (b : bool),
        stdin w = skipped ++ line :: rest ->
        Forall (fun l => lower l <> u "д" /\ lower l <> u "н") skipped ->
        lower line = (if b then u "д" else u "н") ->
        exists w',
          read_yes_no prompt w = (Ok b, w')
          /\ stdin w' = rest).
Proof.
  split; [apply read_yes_no_body_true |].
  split; [apply read_yes_no_body_false |].
  split; [apply read_yes_no_body_refused |].
  split; [| split].
  - intros w line rest msg Hw Hb; split.
    + eapply read_yes_no_body_retry; eassumption.
    + unfold read_yes_no; apply reader_retry with (line := line); assumption.
  - intros w b w' Hr.
    apply reader_ok in Hr as (skipped & line & Hin & Hs & Ha & _).
    exists skipped, line; repeat split; try assumption.
    + destruct b; [apply read_yes_no_body_true | apply read_yes_no_body_false];
        assumption.
    + eapply Forall_impl; [| exact Hs].
      intros l Hl; apply (proj1 (read_yes_no_body_refused l)); assumption.
  - intros w skipped line rest b Hw Hs Hl.
    assert (Ha : read_yes_no_body line = Accept b).
    { destruct b; [apply read_yes_no_body_true | apply read_yes_no_body_false];
        exact Hl. }
    assert (Hr : Forall (refused read_yes_no_body) skipped).
    { eapply Forall_impl; [| exact Hs].
      intros l Hno; apply read_yes_no_body_refused; exact Hno. }
    destruct (@reader_returns _ (prompt ++ u " (д/н): ")
                _ skipped line rest b Hr Ha w Hw)
      as (w' & Er & Hi & _).
    exists w'; split; [exact Er | exact Hi].
Qed.

Lemma read_yes_no_two_tokens_witness :
  read_yes_no_body (B := cpython) (u "Д") = Accept true
  /\ read_yes_no_body (B := cpython) (u "н") = Accept false
  /\ refused (read_yes_no_body (B := cpython)) (u "yes")
  /\ (exists skipped line,
        [u "yes"; u "Н"; u "д"] = skipped ++ line :: [u "д"]
        /\ cp_lower line = u "н"
        /\ Forall (fun l => cp_lower l <> u "д" /\ cp_lower l <> u "н") skipped)
  /\ exists w',
      read_yes_no (B := cpython) (u "?") (session [u "yes"; u "д "; u "Д"; u "н"])
      = (Ok true, w')
      /\ stdin w' = [u "н"].
Proof.
  destruct (read_yes_no_two_tokens (B := cpython) (u "?"))
    as (H1 & H2 & H3 & _ & H5 & H6).
  split; [apply H1; vm_compute; reflexivity |].
  split; [apply H2; vm_compute; reflexivity |].
  split; [apply H3; split; vm_compute; discriminate |].
  split.
  - refine (H5 (session [u "yes"; u "Н"; u "д"]) false
               (snd (read_yes_no (B := cpython) (u "?")
                       (session [u "yes"; u "Н"; u "д"]))) _).
    vm_compute; reflexivity.
  - apply (H6 (session [u "yes"; u "д "; u "Д"; u "н"]) [u "yes"; u "д "] (u "Д"));
      [reflexivity | | vm_compute; reflexivity].
    repeat constructor; vm_compute; discriminate.
Defined.

(** C6, as it is stated, fails: the capital letters are accepted too, so
    more than two lines are accepted. *)
Lemma read_yes_no_accepts_capitals :
  read_yes_no_body (B := cpython) (u "Д") = Accept true
  /\ read_yes_no_body (B := cpython) (u "Н") = Accept false
  /\ ~ (exists yes no : str,
          forall line,
            (exists b, read_yes_no_body (B := cpython) line = Accept b)
            <-> line = yes \/ line = no).
Proof.
  split; [vm_compute; reflexivity |].
  split; [vm_compute; reflexivity |].
  intros (yes & no & Hc).
  assert (D1 : u "д" <> u "Д") by (vm_compute; discriminate).
  assert (D2 : u "д" <> u "н") by (vm_compute; discriminate).
  assert (D3 : u "Д" <> u "н") by (vm_compute; discriminate).
  assert (A1 : u "д" = yes \/ u "д" = no)
    by (apply Hc; exists true; vm_compute; reflexivity).
  assert (A2 : u "Д" = yes \/ u "Д" = no)
    by (apply Hc; exists true; vm_compute; reflexivity).
  assert (A3 : u "н" = yes \/ u "н" = no)
    by (apply Hc; exists false; vm_compute; reflexivity).
  destruct A1, A2, A3; congruence.
Qed.

(* ================================================================== *)
(** ** The table: inserting and listing *)
(* ================================================================== *)

Section OrderById.

Implicit Types (x : Z * row) (l : list (Z * row)).

Lemma insert_by_id_perm x l : Permutation (x :: l) (insert_by_id x l).
Proof.
  induction l as [|y l IH]; simpl; [reflexivity |].
  destruct (fst x <? fst y); [reflexivity |].
  rewrite perm_swap; apply perm_skip; exact IH.
Qed.

Lemma order_by_id_acc_perm l :
  forall acc,
    Permutation (l ++ acc) (fold_left (fun a x => insert_by_id x a) l acc).
Proof.
  induction l as [|x l IH]; intros acc; simpl; [reflexivity |].
  rewrite <- IH, <- insert_by_id_perm.
  apply Permutation_middle.
Qed.

(** [ORDER BY id] returns the rows it was given... *)
Lemma order_by_id_perm l : Permutation l (order_by_id l).
Proof.
  unfold order_by_id; rewrite <- order_by_id_acc_perm, app_nil_r; reflexivity.
Qed.

Lemma insert_by_id_sorted x l :
  StronglySorted by_id l -> StronglySorted by_id (insert_by_id x l).
Proof.
  induction 1 as [|y l Hs IH Hy]; simpl.
  - repeat constructor.
  - destruct (fst x <? fst y) eqn:C.
    + constructor; [constructor; assumption |].
      apply Z.ltb_lt in C.
      constructor; [unfold by_id; lia |].
      eapply Forall_impl; [| exact Hy]; unfold by_id; intros; lia.
    + apply Z.ltb_ge in C.
      constructor; [assumption |].
      rewrite <- insert_by_id_perm; constructor; assumption.
Qed.

(** ... in the order of their [id]. *)
Lemma order_by_id_sorted l : StronglySorted by_id (order_by_id l).
Proof.
  unfold order_by_id.
  assert (G : forall acc, StronglySorted by_id acc ->
                StronglySorted by_id
                  (fold_left (fun a x => insert_by_id x a) l acc)).
  { induction l as [|x l IH]; intros acc Ha; simpl; [assumption |].
    apply IH, insert_by_id_sorted; assumption. }
  apply G; constructor.
Qed.

(** A row whose [id] is above all the others comes last. *)
Lemma insert_by_id_last x l :
  Forall (fun y => fst y < fst x) l -> insert_by_id x l = l ++ [x].
Proof.
  induction 1 as [|y l Hy Hl IH]; simpl; [reflexivity |].
  destruct (fst x <? fst y) eqn:C; [apply Z.ltb_lt in C; lia |].
  rewrite IH; reflexivity.
Qed.

Lemma order_by_id_last x l :
  Forall (fun y => fst y < fst x) l ->
  order_by_id (l ++ [x]) = order_by_id l ++ [x].
Proof.
  intros Hl; unfold order_by_id; rewrite fold_left_app; simpl.
  apply insert_by_id_last.
  eapply Permutation_Forall; [apply order_by_id_perm | exact Hl].
Qed.

End OrderById.

Lemma max_id_above (i : Z) (l : list Z) :
  i <= fold_right Z.max i l /\ Forall (fun y => y <= fold_right Z.max i l) l.
Proof.
  induction l as [|y l [IH1 IH2]]; simpl; [split; [lia | constructor] |].
  split; [lia |].
  constructor; [lia |].
  eapply Forall_impl; [| exact IH2]; simpl; intros; lia.
Qed.

(** The next [id] is above every [id] of the table, and it is an [id]. *)
Lemma next_id_above (t : table) (id : Z) :
  next_id t = Some id ->
  Forall (fun y => fst y < id) (forms t) /\ id <= max_rowid.
Proof.
  unfold next_id.
  destruct (existsb _ _ || _) eqn:Hfull; [discriminate |].
  intros [= <-].
  apply orb_false_iff in Hfull as [Hids Hseq].
  apply Z.leb_gt in Hseq.
  assert (Hall : Forall (fun i => i < max_rowid) (map fst (forms t))).
  { apply Forall_forall; intros i Hi.
    destruct (max_rowid <=? i) eqn:C; [| apply Z.leb_gt; exact C].
    exfalso; assert (existsb (fun i => max_rowid <=? i) (map fst (forms t))
                     = true) by (apply existsb_exists; eauto).
    congruence. }
  assert (Hpos : 1 <= max_rowid) by (unfold max_rowid; lia).
  destruct (map fst (forms t)) as [|i ids] eqn:Hm.
  - apply map_eq_nil in Hm; rewrite Hm; split; [apply Forall_nil | lia].
  - destruct (max_id_above i ids) as [H1 H2].
    assert (Hb : fold_right Z.max i ids < max_rowid).
    { inversion Hall as [|? ? Hi Hids']; subst.
      clear - Hi Hids'; induction Hids' as [|y l Hy Hl IH]; simpl; lia. }
    split; [| lia].
    apply Forall_forall; intros y Hy.
    assert (Hin : In (fst y) (i :: ids))
      by (rewrite <- Hm; apply in_map; exact Hy).
    destruct Hin as [<- | Hin]; [lia |].
    rewrite Forall_forall in H2; specialize (H2 _ Hin); simpl in H2; lia.
Qed.

Lemma check_row_params (f : Form) : valid f -> check_row (params f) = true.
Proof.
  unfold valid, check_row; intros [Hlo Hhi]; simpl.
  apply Z.leb_le in Hlo, Hhi; rewrite Hlo, Hhi.
  destruct (gender f), (education f), (answer_yes f); vm_compute; reflexivity.
Qed.

Lemma insert_row_ok (r : row) (t : table) :
  has_room t -> check_row r = true ->
  exists t', insert_row r t = Ok t'.
Proof.
  unfold has_room, insert_row; intros Hr C.
  destruct (next_id t); [| contradiction].
  rewrite C; eauto.
Qed.

Lemma insert_row_inv (r : row) (t t' : table) :
  insert_row r t = Ok t' ->
  check_row r = true
  /\ exists id, next_id t = Some id /\ forms t' = forms t ++ [(id, r)].
Proof.
  unfold insert_row; destruct (next_id t) as [id|]; [| discriminate].
  destruct (check_row r); [| discriminate].
  intros [= <-]; eauto.
Qed.

Lemma insert_row_full (r : row) (t : table) :
  ~ has_room t -> insert_row r t = Raise OperationalError.
Proof.
  unfold has_room, insert_row; intros Hr.
  destruct (next_id t); [exfalso; apply Hr; discriminate | reflexivity].
Qed.

(** An insertion raises because no [id] is left or because the row is
    refused. *)
Lemma insert_row_raise (r : row) (t : table) (e : exn) :
  insert_row r t = Raise e ->
  (e = OperationalError /\ ~ has_room t)
  \/ (e = IntegrityError /\ check_row r = false).
Proof.
  unfold has_room, insert_row; destruct (next_id t) as [id|].
  - destruct (check_row r); [discriminate |].
    intros [= <-]; right; auto.
  - intros [= <-]; left; split; [reflexivity | intros H; apply H; reflexivity].
Qed.

Lemma insert_row_room (r : row) (t t' : table) :
  insert_row r t = Ok t' -> has_room t.
Proof.
  intros Hi; apply insert_row_inv in Hi as (_ & id & Hn & _).
  unfold has_room; congruence.
Qed.

Lemma select_all_insert (r : row) (t t' : table) :
  insert_row r t = Ok t' -> select_all t' = select_all t ++ [r].
Proof.
  intros Hi; apply insert_row_inv in Hi as (_ & id & Hn & Hf).
  unfold select_all; rewrite Hf, order_by_id_last, map_app; [reflexivity |].
  apply (next_id_above _ Hn).
Qed.

(** A sequence of insertions that succeeds has inserted rows that the
    table admits, and they are listed after the former rows, in their
    order. *)
Lemma select_all_insert_all (rs : list row) :
  forall t t',
    insert_all rs t = Ok t' ->
    Forall (fun r => check_row r = true) rs
    /\ select_all t' = select_all t ++ rs.
Proof.
  induction rs as [|r rs IH]; intros t t' E; simpl in E.
  - injection E as <-; rewrite app_nil_r; auto.
  - destruct (insert_row r t) as [t1|e] eqn:Hi; [| discriminate].
    destruct (IH _ _ E) as (Hc & Hs).
    pose proof (insert_row_inv _ _ Hi) as [Hr _].
    split; [constructor; assumption |].
    rewrite Hs, (@select_all_insert _ _ _ Hi), <- app_assoc; reflexivity.
Qed.

(** In a table whose [id]s are at most the counter, the next [id] is the
    counter and one. *)
Lemma next_id_dense (t : table) (k : Z) :
  sqlite_sequence t = k -> 0 <= k < max_rowid ->
  Forall (fun y => fst y <= k) (forms t) ->
  next_id t = Some (k + 1).
Proof.
  intros Hs Hk Hall; unfold next_id; rewrite Hs.
  assert (Hids : Forall (fun i => i <= k) (map fst (forms t)))
    by (apply Forall_map; exact Hall).
  destruct (existsb (fun i => max_rowid <=? i) (map fst (forms t))) eqn:Hex.
  - apply existsb_exists in Hex as (i & Hi & Hm); apply Z.leb_le in Hm.
    rewrite Forall_forall in Hids; specialize (Hids _ Hi); lia.
  - destruct (max_rowid <=? k) eqn:Hm; [apply Z.leb_le in Hm; lia |].
    simpl; f_equal.
    destruct (map fst (forms t)) as [|i ids]; [lia |].
    assert (fold_right Z.max i ids <= k).
    { inversion Hids as [|? ? Hi Hrest]; subst.
      clear - Hi Hrest; induction Hrest as [|y l Hy Hl IH]; simpl; lia. }
    lia.
Qed.

Lemma insert_all_dense (rs : list row) :
  forall t k,
    sqlite_sequence t = k -> 0 <= k ->
    Forall (fun y => fst y <= k) (forms t) ->
    Forall (fun r => check_row r = true) rs ->
    k + Z.of_nat (List.length rs) <= max_rowid ->
    exists t', insert_all rs t = Ok t'.
Proof.
  induction rs as [|r rs IH]; intros t k Hs Hk Hall Hv Hn; simpl.
  - eauto.
  - inversion Hv as [|? ? Hr Hrs]; subst.
    simpl List.length in Hn; rewrite Nat2Z.inj_succ in Hn.
    unfold insert_row.
    rewrite (@next_id_dense t (sqlite_sequence t)), Hr;
      [| reflexivity | lia | exact Hall].
    apply (IH _ (sqlite_sequence t + 1)); simpl; try lia; try assumption.
    apply Forall_app; split; [| constructor; [simpl; lia | constructor]].
    eapply Forall_impl; [| exact Hall]; simpl; intros; lia.
Qed.

Lemma max_id_last (id : Z) (l : list Z) :
  Forall (fun y => y < id) l ->
  match l ++ [id] with
  | [] => 1
  | i :: rest => fold_right Z.max i rest + 1
  end = id + 1.
Proof.
  intros Hl; destruct l as [|i l]; [reflexivity |].
  inversion Hl as [|? ? Hi Hl']; subst.
  simpl app; f_equal.
  clear Hl; induction Hl' as [|y l Hy Hl' IH]; simpl; lia.
Qed.

(** After a row is given the [id] [id], the next one is [id + 1], if there
    is one. *)
Lemma next_id_after_insert (r : row) (t t' : table) (id : Z) :
  next_id t = Some id -> insert_row r t = Ok t' -> id < max_rowid ->
  next_id t' = Some (id + 1).
Proof.
  intros Hn Hi Hlt.
  destruct (next_id_above _ Hn) as [Hall _].
  unfold insert_row in Hi; rewrite Hn in Hi.
  destruct (check_row r); [| discriminate].
  injection Hi as <-.
  unfold next_id; cbn [forms sqlite_sequence].
  rewrite map_app; cbn [map fst].
  assert (Hids : Forall (fun y => y < id) (map fst (forms t)))
    by (apply Forall_map; exact Hall).
  rewrite existsb_app; cbn [existsb].
  replace (existsb (fun i => max_rowid <=? i) (map fst (forms t))) with false.
  - replace (max_rowid <=? id) with false by (symmetry; apply Z.leb_gt; lia).
    cbn [orb]; rewrite (max_id_last Hids); f_equal; lia.
  - symmetry; apply not_true_is_false; intros Hex.
    apply existsb_exists in Hex as (i & Hin & Hm); apply Z.leb_le in Hm.
    rewrite Forall_forall in Hids; specialize (Hids _ Hin); lia.
Qed.

(** A sequence of rows that the table admits is inserted when the [id]s
    left are as many as the rows. *)
Lemma insert_all_room (rs : list row) :
  forall t id,
    next_id t = Some id ->
    id + Z.of_nat (List.length rs) <= max_rowid + 1 ->
    Forall (fun r => check_row r = true) rs ->
    exists t', insert_all rs t = Ok t'.
Proof.
  induction rs as [|r rs IH]; intros t id Hn Hb Hv; simpl; [eauto |].
  inversion Hv as [|? ? Hr Hrs]; subst.
  simpl List.length in Hb; rewrite Nat2Z.inj_succ in Hb.
  assert (Hroom : has_room t) by (unfold has_room; congruence).
  destruct (@insert_row_ok r t Hroom Hr) as (t1 & Hi); rewrite Hi.
  destruct rs as [|r' rs']; [simpl; eauto |].
  assert (Hlen : 0 < Z.of_nat (List.length (r' :: rs')))
    by (simpl List.length; lia).
  apply (IH t1 (id + 1)); [| lia | exact Hrs].
  apply (@next_id_after_insert r t t1 id Hn Hi); lia.
Qed.

Lemma values_of_Gender (g g' : Gender) : value g = value g' -> g = g'.
Proof. destruct g, g'; vm_compute; congruence. Qed.

Lemma values_of_Education (e e' : Education) : value e = value e' -> e = e'.
Proof. destruct e, e'; vm_compute; congruence. Qed.

Lemma params_injective (f f' : Form) : params f = params f' -> f = f'.
Proof.
  destruct f as [a g e y], f' as [a' g' e' y']; unfold params; simpl.
  intros [= -> Hg He Hy].
  apply values_of_Gender in Hg; apply values_of_Education in He; subst.
  destruct y, y'; simpl in Hy; congruence.
Qed.

(* ================================================================== *)
(** ** The statistics *)
(* ================================================================== *)

Lemma where_all_Forall (cs : list clause) (r : row) :
  where_all cs r = true <-> Forall (fun c => holds c r = true) cs.
Proof.
  unfold where_all; rewrite forallb_forall, Forall_forall; reflexivity.
Qed.

Lemma where_all_Exists (cs : list clause) (r : row) :
  where_all cs r = false <-> Exists (fun c => holds c r = false) cs.
Proof.
  unfold where_all; induction cs as [|c cs IH]; simpl.
  - split; [discriminate | intros H; inversion H].
  - rewrite andb_false_iff, IH, Exists_cons; reflexivity.
Qed.

(** A count after an insertion: one more when the new row passes the
    [WHERE], the same otherwise. *)
Lemma count_where_insert (cs : list clause) (r : row) (t t' : table) :
  insert_row r t = Ok t' ->
  count_where cs t' = count_where cs t + (if where_all cs r then 1 else 0).
Proof.
  intros Hi; apply insert_row_inv in Hi as (_ & id & _ & Hf).
  unfold count_where; rewrite Hf, map_app, filter_app, length_app; simpl.
  destruct (where_all cs r); simpl; lia.
Qed.

Lemma counts_those_intro (q : list clause) (P : row -> Prop) :
  (forall r, where_all q r = true <-> P r) -> counts_those q P.
Proof.
  intros HP; split; [exact HP |].
  intros t r Hroom Hr.
  destruct (@insert_row_ok r t Hroom Hr) as (t' & Hi).
  exists t'; split; [exact Hi |].
  rewrite (@count_where_insert q _ _ _ Hi).
  split.
  - intros Hp; apply HP in Hp; rewrite Hp; reflexivity.
  - intros Hn; destruct (where_all q r) eqn:Hw; [| lia].
    exfalso; apply Hn, HP; exact Hw.
Qed.

Lemma where_men_40_yes (r : row) :
  where_all men_40_yes r = true <-> man_over_40_higher_yes r.
Proof.
  unfold where_all, men_40_yes, man_over_40_higher_yes; simpl.
  rewrite !andb_true_iff, !str_eqb_eq, Z.ltb_lt, Z.eqb_eq; tauto.
Qed.

Lemma where_women_30_no (r : row) :
  where_all women_30_no r = true <-> woman_under_30_secondary_no r.
Proof.
  unfold where_all, women_30_no, woman_under_30_secondary_no; simpl.
  rewrite !andb_true_iff, !str_eqb_eq, Z.ltb_lt, Z.eqb_eq; tauto.
Qed.

Lemma where_men_25_yes (r : row) :
  where_all men_25_yes r = true <-> man_under_25_primary_yes r.
Proof.
  unfold where_all, men_25_yes, man_under_25_primary_yes; simpl.
  rewrite !andb_true_iff, !str_eqb_eq, Z.ltb_lt, Z.eqb_eq; tauto.
Qed.

Lemma has_room_empty : has_room empty_table.
Proof. unfold has_room; vm_compute; discriminate. Qed.

Lemma no_room_full : ~ has_room full_table.
Proof. unfold has_room; intros H; apply H; vm_compute; reflexivity. Qed.

(** C2, as the code has it.  Each statistic is the conjunction of four
    comparisons on the columns.  On every table where an [id] is left, a
    record that the table admits is inserted, and then the count of a
    statistic is one more if the record satisfies its four comparisons and
    is the same if the record fails one of them.  Where no [id] is left the
    insertion raises. *)
Theorem stats_count_conjunctions :
  (List.length men_40_yes = 4%nat
   /\ List.length women_30_no = 4%nat
   /\ List.length men_25_yes = 4%nat)
  /\ counts_those men_40_yes man_over_40_higher_yes
  /\ counts_those women_30_no woman_under_30_secondary_no
  /\ counts_those men_25_yes man_under_25_primary_yes
  /\ (forall t r, ~ has_room t -> insert_row r t = Raise OperationalError).
Proof.
  split; [repeat split |].
  split; [apply counts_those_intro, where_men_40_yes |].
  split; [apply counts_those_intro, where_women_30_no |].
  split; [apply counts_those_intro, where_men_25_yes |].
  intros t r; apply insert_row_full.
Qed.

Lemma stats_count_conjunctions_witness :
  (exists t',
      insert_row (params man_45) empty_table = Ok t'
      /\ count_where men_40_yes t' = count_where men_40_yes empty_table + 1)
  /\ (exists t',
        insert_row (params woman_20) empty_table = Ok t'
        /\ count_where men_40_yes t' = count_where men_40_yes empty_table)
  /\ where_all women_30_no (params woman_20) = true.
Proof.
  destruct stats_count_conjunctions as (_ & [_ H1] & [H2 _] & _).
  split; [| split].
  - destruct (H1 empty_table (params man_45) has_room_empty eq_refl)
      as (t' & Hi & Hyes & _).
    exists t'; split; [exact Hi |].
    apply Hyes; unfold man_over_40_higher_yes; simpl; repeat split; lia.
  - destruct (H1 empty_table (params woman_20) has_room_empty eq_refl)
      as (t' & Hi & _ & Hno).
    exists t'; split; [exact Hi |].
    apply Hno; intros (Hg & _); vm_compute in Hg; discriminate.
  - apply H2; unfold woman_under_30_secondary_no; simpl; repeat split; lia.
Defined.

(** C2, as it is stated, fails on a table where no [id] is left: a record
    that satisfies the four comparisons of a statistic is not inserted, and
    the count is as it was. *)
Lemma count_stays_when_ids_run_out :
  woman_under_30_secondary_no (params woman_20)
  /\ check_row (params woman_20) = true
  /\ execute_insert (params woman_20) (full_session [])
     = (Raise OperationalError, full_session [])
  /\ ~ (exists t',
          insert_row (params woman_20) full_table = Ok t'
          /\ count_where women_30_no t'
             = count_where women_30_no full_table + 1).
Proof.
  split; [unfold woman_under_30_secondary_no; simpl; repeat split; lia |].
  split; [reflexivity |].
  split; [vm_compute; reflexivity |].
  intros (t' & Hi & _); vm_compute in Hi; discriminate.
Qed.

(** C7, as the code has it.  On every table where an [id] is left,
    inserting the man of 45 with higher education who answered yes adds one
    to the first count and leaves the two others as they were, and
    inserting the woman of 20 with secondary education who answered no adds
    one to the second count.  Where no [id] is left neither is inserted. *)
Theorem scenario_counts (t : table) :
  (params man_45
   = {| r_age := 45; r_gender := u "м"; r_education := u "в";
        r_answer_yes := 1 |}
   /\ params woman_20
      = {| r_age := 20; r_gender := u "ж"; r_education := u "с";
           r_answer_yes := 0 |})
  /\ (has_room t ->
      (exists t',
          insert_row (params man_45) t = Ok t'
          /\ count_where men_40_yes t' = count_where men_40_yes t + 1
          /\ count_where women_30_no t' = count_where women_30_no t
          /\ count_where men_25_yes t' = count_where men_25_yes t)
      /\ (exists t',
            insert_row (params woman_20) t = Ok t'
            /\ count_where women_30_no t' = count_where women_30_no t + 1))
  /\ (~ has_room t ->
      insert_row (params man_45) t = Raise OperationalError
      /\ insert_row (params woman_20) t = Raise OperationalError).
Proof.
  split; [split; reflexivity |].
  split.
  - intros Hroom; split.
    + destruct (@insert_row_ok (params man_45) t Hroom eq_refl) as (t' & Hi).
      exists t'; split; [exact Hi |].
      rewrite !(@count_where_insert _ _ _ _ Hi).
      repeat apply conj; vm_compute (where_all _ _); cbv iota; lia.
    + destruct (@insert_row_ok (params woman_20) t Hroom eq_refl) as (t' & Hi).
      exists t'; split; [exact Hi |].
      rewrite (@count_where_insert _ _ _ _ Hi).
      vm_compute (where_all _ _); cbv iota; lia.
  - intros Hfull; split; apply insert_row_full; exact Hfull.
Qed.

Lemma scenario_counts_witness :
  (exists t',
      insert_row (params man_45) empty_table = Ok t'
      /\ count_where men_40_yes t' = count_where men_40_yes empty_table + 1
      /\ count_where women_30_no t' = count_where women_30_no empty_table
      /\ count_where men_25_yes t' = count_where men_25_yes empty_table)
  /\ insert_row (params woman_20) full_table = Raise OperationalError.
Proof.
  split.
  - apply (proj1 (proj2 (scenario_counts empty_table))), has_room_empty.
  - apply (proj2 (proj2 (scenario_counts full_table))), no_room_full.
Defined.

(** C7, as it is stated, fails on a table where no [id] is left: the man of
    45 is not inserted and the first count is as it was. *)
Lemma scenario_fails_when_ids_run_out :
  execute_insert (params man_45) (full_session [])
  = (Raise OperationalError, full_session [])
  /\ ~ (exists t',
          insert_row (params man_45) full_table = Ok t'
          /\ count_where men_40_yes t'
             = count_where men_40_yes full_table + 1).
Proof.
  split; [vm_compute; reflexivity |].
  intros (t' & Hi & _); vm_compute in Hi; discriminate.
Qed.

(* ================================================================== *)
(** ** Sequencing *)
(* ================================================================== *)

Lemma bind_ok A C (m : io A) (k : A -> io C) (w : world) (c : C) (w' : world) :
  bind m k w = (Ok c, w') ->
  exists a w1, m w = (Ok a, w1) /\ k a w1 = (Ok c, w').
Proof.
  unfold bind; destruct (m w) as [[a|e] w1]; [| discriminate].
  intros Hk; exists a, w1; auto.
Qed.

Lemma bind_raise A C (m : io A) (k : A -> io C) (w : world) (e : exn)
    (w' : world) :
  bind m k w = (Raise e, w') ->
  m w = (Raise e, w')
  \/ exists a w1, m w = (Ok a, w1) /\ k a w1 = (Raise e, w').
Proof.
  unfold bind; destruct (m w) as [[a|e0] w1].
  - intros Hk; right; exists a, w1; auto.
  - intros [= <- <-]; left; reflexivity.
Qed.

Lemma after_same (w w' : world) :
  stdin w' = stdin w -> stdout w' = stdout w ->
  (is_open (conn w) -> is_open (conn w')) ->
  after w w'.
Proof.
  intros Hi Ho Hc; repeat split; [exists [] | exists [] | exact Hc].
  - rewrite Hi; reflexivity.
  - rewrite Ho, app_nil_r; reflexivity.
Qed.

Lemma after_refl (w : world) : after w w.
Proof.
  apply after_same; auto.
Qed.

Lemma after_trans (w1 w2 w3 : world) : after w1 w2 -> after w2 w3 -> after w1 w3.
Proof.
  intros ((r1 & H1) & (o1 & O1) & C1) ((r2 & H2) & (o2 & O2) & C2).
  repeat split.
  - exists (r1 ++ r2); rewrite H1, H2, app_assoc; reflexivity.
  - exists (o1 ++ o2); rewrite O2, O1, app_assoc; reflexivity.
  - auto.
Qed.

Lemma after_write (s : str) (w : world) : after w (write s w).
Proof.
  repeat split; simpl; [exists [] | exists [s] | auto]; reflexivity.
Qed.

Create HintDb io.

Lemma steady_ret A (a : A) : steady (ret a).
Proof. intros w r w' [= <- <-]; apply after_refl. Qed.

Lemma steady_raise A (e : exn) : steady (@raise A e).
Proof. intros w r w' [= <- <-]; apply after_refl. Qed.

Lemma steady_bind A C (m : io A) (k : A -> io C) :
  steady m -> (forall a, steady (k a)) -> steady (bind m k).
Proof.
  intros Hm Hk w r w'; unfold bind.
  destruct (m w) as [[a|e] w1] eqn:E; apply Hm in E.
  - intros E2; apply Hk in E2; eapply after_trans; eassumption.
  - intros [= <- <-]; assumption.
Qed.

Lemma steady_print (s : str) : steady (print s).
Proof. intros w r w' [= <- <-]; apply after_write. Qed.

Lemma steady_input (prompt : str) : steady (input prompt).
Proof.
  intros w r w'; unfold input; destruct (stdin w) as [|line rest] eqn:E.
  - intros [= <- <-]; apply after_write.
  - intros [= <- <-]; repeat split; simpl; auto.
    + exists [line]; rewrite E; reflexivity.
    + exists [prompt]; reflexivity.
Qed.

Lemma steady_reader A (prompt : str) (body : str -> attempt A) :
  steady (reader prompt body).
Proof.
  intros w [a|e] w' E.
  - apply reader_ok in E as (skipped & line & Hin & _ & _ & Ho & _ & Hc).
    repeat split.
    + exists (skipped ++ [line]); rewrite Hin, <- app_assoc; reflexivity.
    + eexists; exact Ho.
    + rewrite Hc; auto.
  - apply reader_raise in E as (_ & _ & Hin & Ho & _ & Hc).
    repeat split.
    + exists (stdin w); rewrite Hin, app_nil_r; reflexivity.
    + eexists; exact Ho.
    + rewrite Hc; auto.
Qed.

(** A statement that raises changes nothing; one that returns has put the
    new table in the place of the view. *)
Lemma execute_insert_inv (r : row) (w : world) (o : outcome unit)
    (w' : world) :
  execute_insert r w = (o, w') ->
  match o with
  | Ok _ =>
      exists t t',
        conn w = Open t /\ bind_error r = None
        /\ insert_row r t = Ok t' /\ w' = set_conn (Open t') w
  | Raise e =>
      w' = w
      /\ ((e = ProgrammingError /\ conn w = Closed)
          \/ (bind_error r = Some e /\ conn w <> Closed)
          \/ (exists t, conn w = Open t /\ bind_error r = None
                    /\ insert_row r t = Raise e))
  end.
Proof.
  unfold execute_insert.
  destruct (conn w) as [|t] eqn:Hc.
  - intros [= <- <-]; auto.
  - destruct (bind_error r) as [e0|] eqn:Hb.
    + intros [= <- <-]; split; [reflexivity |].
      right; left; split; [reflexivity | discriminate].
    + destruct (insert_row r t) as [t'|e] eqn:Hi; intros [= <- <-].
      * exists t, t'; auto.
      * split; [reflexivity |]; right; right; exists t; auto.
Qed.

Lemma steady_execute_insert (r : row) : steady (execute_insert r).
Proof.
  intros w [[]|e] w' E; apply execute_insert_inv in E.
  - destruct E as (t & t' & Hc & _ & _ & ->).
    apply after_same; simpl; auto.
  - destruct E as [-> _]; apply after_refl.
Qed.

Lemma steady_execute_select A (q : table -> A) : steady (execute_select q).
Proof.
  intros w o w'; unfold execute_select.
  destruct (conn w); intros [= <- <-]; apply after_refl.
Qed.

Lemma steady_commit : steady commit.
Proof.
  intros w o w'; unfold commit.
  destruct (conn w) eqn:E; intros [= <- <-]; [apply after_refl |].
  apply after_same; simpl; auto.
Qed.

#[local] Hint Resolve steady_ret steady_raise steady_bind steady_print
  steady_input steady_reader steady_execute_insert steady_execute_select
  steady_commit : io.

(* ================================================================== *)
(** ** Adding a record *)
(* ================================================================== *)

(** A reader leaves the database and the connection alone. *)
Lemma reader_frame A (prompt : str) (body : str -> attempt A) (w : world)
    (r : outcome A) (w' : world) :
  reader prompt body w = (r, w') ->
  database w' = database w /\ conn w' = conn w.
Proof.
  destruct r as [a|e]; intros E.
  - apply reader_ok in E as (? & ? & _ & _ & _ & _ & Hd & Hc); auto.
  - apply reader_raise in E as (_ & _ & _ & _ & Hd & Hc); auto.
Qed.

Section AddForm.

Context {B : Builtins}.

Lemma read_form_ok (w : world) (f : Form) (w' : world) :
  read_form w = (Ok f, w') ->
  valid f /\ database w' = database w /\ conn w' = conn w.
Proof.
  unfold read_form; intros E.
  apply bind_ok in E as (a & w1 & E1 & E).
  apply bind_ok in E as (g & w2 & E2 & E).
  apply bind_ok in E as (e & w3 & E3 & E).
  apply bind_ok in E as (y & w4 & E4 & E).
  injection E as <- <-.
  pose proof (@reader_frame _ _ _ _ _ _ E1) as [D1 C1].
  pose proof (@reader_frame _ _ _ _ _ _ E2) as [D2 C2].
  pose proof (@reader_frame _ _ _ _ _ _ E3) as [D3 C3].
  pose proof (@reader_frame _ _ _ _ _ _ E4) as [D4 C4].
  apply reader_ok in E1 as (? & ? & _ & _ & Ha & _).
  apply read_int_body_accept in Ha as [_ Hr].
  split; [exact Hr | split; congruence].
Qed.

Lemma read_form_raise (w : world) (e : exn) (w' : world) :
  read_form w = (Raise e, w') ->
  e = EOFError /\ database w' = database w /\ conn w' = conn w.
Proof.
  unfold read_form; intros E.
  apply bind_raise in E as [E | (a & w1 & E1 & E)];
    [pose proof (@reader_frame _ _ _ _ _ _ E) as [? ?];
     apply reader_raise in E as (-> & _); auto |].
  pose proof (@reader_frame _ _ _ _ _ _ E1) as [D1 C1].
  apply bind_raise in E as [E | (g & w2 & E2 & E)];
    [pose proof (@reader_frame _ _ _ _ _ _ E) as [? ?];
     apply reader_raise in E as (-> & _); repeat split; congruence |].
  pose proof (@reader_frame _ _ _ _ _ _ E2) as [D2 C2].
  apply bind_raise in E as [E | (d & w3 & E3 & E)];
    [pose proof (@reader_frame _ _ _ _ _ _ E) as [? ?];
     apply reader_raise in E as (-> & _); repeat split; congruence |].
  pose proof (@reader_frame _ _ _ _ _ _ E3) as [D3 C3].
  apply bind_raise in E as [E | (y & w4 & E4 & E)];
    [pose proof (@reader_frame _ _ _ _ _ _ E) as [? ?];
     apply reader_raise in E as (-> & _); repeat split; congruence |].
  discriminate.
Qed.

Lemma bind_error_params (f : Form) : valid f -> bind_error (params f) = None.
Proof.
  unfold valid, bind_error, fits_int64; intros Hv; simpl.
  replace (- 9223372036854775808 <=? age f) with true
    by (symmetry; apply Z.leb_le; lia).
  replace (age f <=? 9223372036854775807) with true
    by (symmetry; apply Z.leb_le; lia).
  destruct (gender f), (education f), (answer_yes f); reflexivity.
Qed.

(** When [add_form] returns, one valid record has been inserted through the
    connection, and nothing is committed yet. *)
Lemma add_form_ok (w : world) (w' : world) :
  add_form w = (Ok tt, w') ->
  exists f t t',
    valid f
    /\ conn w = Open t
    /\ insert_row (params f) t = Ok t'
    /\ conn w' = Open t'
    /\ database w' = database w.
Proof.
  unfold add_form; intros E.
  apply bind_ok in E as (f & w1 & E1 & E).
  apply read_form_ok in E1 as (Hv & D1 & C1).
  apply bind_ok in E as ([] & w2 & E2 & E).
  injection E as <-.
  apply execute_insert_inv in E2 as (t & t' & Hc & _ & Hi & ->).
  exists f, t, t'; simpl; split; [exact Hv |].
  repeat split; auto; congruence.
Qed.

(** [add_form] raises at the end of the input, because the connection is
    closed, or because no [id] is left; in each case nothing has been
    inserted. *)
Lemma add_form_raise (w : world) (e : exn) (w' : world) :
  add_form w = (Raise e, w') ->
  (e = EOFError
   \/ (e = ProgrammingError /\ conn w = Closed)
   \/ (e = OperationalError
       /\ exists t, conn w = Open t /\ ~ has_room t))
  /\ database w' = database w
  /\ conn w' = conn w.
Proof.
  unfold add_form; intros E.
  apply bind_raise in E as [E | (f & w1 & E1 & E)].
  - apply read_form_raise in E as (-> & ? & ?); auto.
  - apply read_form_ok in E1 as (Hv & D1 & C1).
    apply bind_raise in E as [E | ([] & w2 & _ & E)]; [| discriminate].
    apply execute_insert_inv in E as [-> He].
    split; [| auto].
    destruct He as [[-> Hc] | [[Hb _] | (t & Hc & _ & Hi)]].
    + right; left; split; [reflexivity | congruence].
    + rewrite (bind_error_params Hv) in Hb; discriminate.
    + apply insert_row_raise in Hi as [[-> Hfull] | [_ Hr]].
      * right; right; split; [reflexivity |].
        exists t; split; [congruence | exact Hfull].
      * rewrite (check_row_params Hv) in Hr; discriminate.
Qed.

End AddForm.

(* ------------------------------------------------------------------ *)
(** *** Listing *)

Lemma form_line_ok (idx : Z) (r : row) :
  check_row r = true -> exists line, form_line idx r = Ok line.
Proof.
  unfold check_row, form_line, edu_ru, in_text; simpl.
  rewrite !andb_true_iff, !orb_true_iff.
  intros [[[_ _] [He | [He | [He | He]]]] _]; try discriminate;
    rewrite He; repeat match goal with |- context [if ?c then _ else _] =>
                         destruct c end; eauto.
Qed.

Lemma table_ok_select_all (t : table) :
  table_ok t -> Forall (fun r => check_row r = true) (select_all t).
Proof.
  unfold table_ok, select_all; intros Ht.
  eapply Permutation_Forall; [| exact Ht].
  apply Permutation_map, order_by_id_perm.
Qed.

Lemma table_ok_insert (r : row) (t t' : table) :
  table_ok t -> insert_row r t = Ok t' -> table_ok t'.
Proof.
  unfold table_ok; intros Ht Hi.
  apply insert_row_inv in Hi as (Hr & id & _ & ->).
  rewrite map_app; apply Forall_app; split; [exact Ht |].
  constructor; [exact Hr | constructor].
Qed.

(** The line that [list_forms] makes of the row of a record is the line of
    the format for that record. *)
Lemma form_line_params (idx : Z) (f : Form) :
  form_line idx (params f) = Ok (shown_line idx f).
Proof.
  unfold form_line, shown_line, params;
    cbn [r_age r_gender r_education r_answer_yes].
  destruct (gender f), (education f), (answer_yes f); reflexivity.
Qed.

Lemma listing_params (fs : list Form) :
  forall idx, listing idx (map params fs) = shown_lines idx fs.
Proof.
  induction fs as [|f fs IH]; intros idx; [reflexivity |].
  cbn [map listing shown_lines]; rewrite form_line_params, IH; reflexivity.
Qed.

Lemma print_forms_params (fs : list Form) :
  forall idx w,
    exists w',
      print_forms idx (map params fs) w = (Ok tt, w')
      /\ stdout w' = stdout w ++ shown_lines idx fs
      /\ stdin w' = stdin w
      /\ database w' = database w
      /\ conn w' = conn w.
Proof.
  induction fs as [|f fs IH]; intros idx w; cbn [map print_forms shown_lines].
  - exists w; rewrite app_nil_r; auto.
  - rewrite form_line_params; unfold bind, print.
    destruct (IH (idx + 1) (write (shown_line idx f ++ nl) w))
      as (w' & -> & Ho & Hi & Hd & Hc).
    exists w'; cbn [stdout stdin database conn write] in *.
    rewrite Ho, <- app_assoc; auto.
Qed.

(** [list_forms] on a table of records: a heading, the line of each record
    in the order of the [SELECT], numbered from 1, a rule. *)
Lemma list_forms_shows (w : world) (t : table) (fs : list Form) :
  conn w = Open t -> select_all t = map params fs -> fs <> [] ->
  exists w',
    list_forms w = (Ok tt, w')
    /\ stdout w'
       = stdout w ++ [(nl ++ u "--- Все анкеты ---") ++ nl]
           ++ shown_lines 1 fs ++ [u "------------------" ++ nl]
    /\ stdin w' = stdin w
    /\ database w' = database w
    /\ conn w' = conn w.
Proof.
  intros Hc Hs Hne.
  unfold list_forms, bind, execute_select; rewrite Hc, Hs.
  destruct fs as [|f fs]; [contradiction |].
  change (map params (f :: fs)) with (params f :: map params fs).
  cbv iota; unfold print at 1.
  change (params f :: map params fs) with (map params (f :: fs)).
  destruct (print_forms_params (f :: fs) 1
              (write ((nl ++ u "--- Все анкеты ---") ++ nl) w))
    as (w1 & -> & Ho & Hi & Hd & Hc1).
  eexists; split; [reflexivity |].
  cbn [stdout stdin database conn write] in *.
  rewrite Ho, <- !app_assoc; repeat split; auto; congruence.
Qed.

Section Typing.

Context {B : Builtins}.

Lemma read_enum_body_Gender (line : str) (g : Gender) :
  lower line = value g -> read_enum_body Gender line = Accept g.
Proof.
  intros E; unfold read_enum_body; rewrite E; destruct g; reflexivity.
Qed.

Lemma read_enum_body_Education (line : str) (e : Education) :
  lower line = value e -> read_enum_body Education line = Accept e.
Proof.
  intros E; unfold read_enum_body; rewrite E; destruct e; reflexivity.
Qed.

Lemma read_yes_no_body_bool (line : str) (b : bool) :
  lower line = (if b then u "д" else u "н") ->
  read_yes_no_body line = Accept b.
Proof.
  intros E; destruct b;
    [apply read_yes_no_body_true | apply read_yes_no_body_false]; exact E.
Qed.

(** The operator types a record, one field a line, each as its reader
    takes it: the four lines are read and the row of the record is what
    [add_form] hands to the [INSERT]. *)
Lemma read_form_typed (w : world) (f : Form)
    (la lg le ly : str) (rest : list str) :
  stdin w = la :: lg :: le :: ly :: rest ->
  int_of la = Some (age f) -> valid f ->
  lower lg = value (gender f) ->
  lower le = value (education f) ->
  lower ly = (if answer_yes f then u "д" else u "н") ->
  exists w1,
    read_form w = (Ok f, w1)
    /\ stdin w1 = rest
    /\ database w1 = database w
    /\ conn w1 = conn w.
Proof.
  intros Hin Ha Hv Hg He Hy.
  assert (Ra : read_int_body 0 120 la = Accept (age f))
    by (apply read_int_body_accept; auto).
  apply read_enum_body_Gender in Hg.
  apply read_enum_body_Education in He.
  apply read_yes_no_body_bool in Hy.
  destruct f as [a g e y]; simpl in Ra, Hg, He, Hy.
  eexists; split.
  { unfold read_form, read_int, read_enum, read_yes_no, bind.
    rewrite reader_unfold, Hin, Ra.
    rewrite reader_unfold; cbn [stdin write set_stdin]; rewrite Hg.
    rewrite reader_unfold; cbn [stdin write set_stdin]; rewrite He.
    rewrite reader_unfold; cbn [stdin write set_stdin]; rewrite Hy.
    unfold ret; reflexivity. }
  repeat split; reflexivity.
Qed.

(** While an [id] is left, [add_form] inserts the record that was typed,
    and the next [SELECT] of the listing returns the former rows followed
    by it. *)
Lemma add_form_typed (w : world) (t : table) (f : Form)
    (la lg le ly : str) (rest : list str) :
  conn w = Open t -> has_room t ->
  stdin w = la :: lg :: le :: ly :: rest ->
  int_of la = Some (age f) -> valid f ->
  lower lg = value (gender f) ->
  lower le = value (education f) ->
  lower ly = (if answer_yes f then u "д" else u "н") ->
  exists w' t',
    add_form w = (Ok tt, w')
    /\ stdin w' = rest
    /\ insert_row (params f) t = Ok t'
    /\ conn w' = Open t'
    /\ execute_select select_all w' = (Ok (select_all t ++ [params f]), w').
Proof.
  intros Hc Hroom Hin Ha Hv Hg He Hy.
  destruct (@insert_row_ok _ t Hroom (check_row_params Hv)) as (t' & Hi).
  destruct (@read_form_typed w f _ _ _ _ _ Hin Ha Hv Hg He Hy)
    as (w1 & Hf & Hr & Hd & Hc1).
  exists (write (u "Спасибо, анкета добавлена!" ++ nl) (set_conn (Open t') w1)), t'.
  split.
  { unfold add_form, bind; rewrite Hf.
    unfold execute_insert; rewrite Hc1, Hc, (bind_error_params Hv), Hi.
    unfold print; reflexivity. }
  split; [exact Hr |].
  split; [exact Hi |].
  split; [reflexivity |].
  unfold execute_select; cbn [conn write set_conn]; cbv iota.
  rewrite (@select_all_insert _ _ _ Hi); reflexivity.
Qed.

(** Where no [id] is left, [add_form] reads the record that was typed and
    raises at the [INSERT]; the table is as it was. *)
Lemma add_form_typed_full (w : world) (t : table) (f : Form)
    (la lg le ly : str) (rest : list str) :
  conn w = Open t -> ~ has_room t ->
  stdin w = la :: lg :: le :: ly :: rest ->
  int_of la = Some (age f) -> valid f ->
  lower lg = value (gender f) ->
  lower le = value (education f) ->
  lower ly = (if answer_yes f then u "д" else u "н") ->
  exists w',
    add_form w = (Raise OperationalError, w')
    /\ stdin w' = rest
    /\ conn w' = Open t.
Proof.
  intros Hc Hfull Hin Ha Hv Hg He Hy.
  destruct (@read_form_typed w f _ _ _ _ _ Hin Ha Hv Hg He Hy)
    as (w1 & Hf & Hr & Hd & Hc1).
  exists w1; split; [| split; [exact Hr | congruence]].
  unfold add_form, bind; rewrite Hf.
  unfold execute_insert; rewrite Hc1, Hc, (bind_error_params Hv).
  rewrite (@insert_row_full _ _ Hfull); reflexivity.
Qed.

End Typing.

(** C1, as the code has it.  While an [id] is left, inserting a valid
    record and then listing gives the former listing followed by that
    record, so the record is there with its four fields as they were given;
    a sequence of records inserted one after the other is listed after the
    former rows in the order of insertion, and a sequence of valid records
    is inserted when the [id]s left are as many as the records (from the
    empty table: every sequence that the [id]s can number, listed as it
    is); a listed row tells which record it was.  In the
    program: when the operator types a valid record and an [id] is left,
    [add_form] inserts it, the [SELECT] of the listing returns the former
    rows followed by it, and [list_forms] prints, between the heading and
    the rule, the line of each former record and then the line of that
    record, numbered from 1; where no [id] is left the [INSERT] raises
    [OperationalError] and [add_form] with it. *)
Theorem insert_then_list {B : Builtins} :
  (forall f t,
      valid f -> has_room t ->
      exists t', insert_row (params f) t = Ok t'
            /\ select_all t' = select_all t ++ [params f])
  /\ (forall fs t t',
        insert_all (map params fs) t = Ok t' ->
        select_all t' = select_all t ++ map params fs)
  /\ (forall fs t id,
        Forall valid fs ->
        next_id t = Some id ->
        id + Z.of_nat (List.length fs) <= max_rowid + 1 ->
        exists t', insert_all (map params fs) t = Ok t'
              /\ select_all t' = select_all t ++ map params fs)
  /\ (forall fs,
        Forall valid fs ->
        Z.of_nat (List.length fs) <= max_rowid ->
        exists t', insert_all (map params fs) empty_table = Ok t'
              /\ select_all t' = map params fs)
  /\ (forall f f', params f = params f' -> f = f')
  /\ (forall w t fs f la lg le ly rest,
        conn w = Open t -> has_room t ->
        select_all t = map params fs ->
        stdin w = la :: lg :: le :: ly :: rest ->
        int_of la = Some (age f) -> valid f ->
        lower lg = value (gender f) ->
        lower le = value (education f) ->
        lower ly = (if answer_yes f then u "д" else u "н") ->
        exists w1,
          add_form w = (Ok tt, w1)
          /\ stdin w1 = rest
          /\ execute_select select_all w1
             = (Ok (map params (fs ++ [f])), w1)
          /\ exists w2,
              list_forms w1 = (Ok tt, w2)
              /\ stdout w2
                 = stdout w1 ++ [(nl ++ u "--- Все анкеты ---") ++ nl]
                     ++ shown_lines 1 (fs ++ [f])
                     ++ [u "------------------" ++ nl])
  /\ (forall w t f la lg le ly rest,
        conn w = Open t -> ~ has_room t ->
        stdin w = la :: lg :: le :: ly :: rest ->
        int_of la = Some (age f) -> valid f ->
        lower lg = value (gender f) ->
        lower le = value (education f) ->
        lower ly = (if answer_yes f then u "д" else u "н") ->
        insert_row (params f) t = Raise OperationalError
        /\ exists w1,
            add_form w = (Raise OperationalError, w1)
            /\ execute_select select_all w1 = (Ok (select_all t), w1)).
Proof.
  split; [| split; [| split; [| split; [| split; [exact params_injective | split]]]]].
  - intros f t Hv Hroom.
    destruct (@insert_row_ok _ t Hroom (check_row_params Hv)) as (t' & Hi).
    exists t'; split; [exact Hi | exact (@select_all_insert _ _ _ Hi)].
  - intros fs t t' E; apply select_all_insert_all in E as [_ E]; exact E.
  - intros fs t id Hv Hn Hb.
    destruct (@insert_all_room (map params fs) t id Hn) as (t' & E).
    + rewrite length_map; exact Hb.
    + apply Forall_map; eapply Forall_impl; [| exact Hv].
      intros f; apply check_row_params.
    + exists t'; split; [exact E |].
      apply select_all_insert_all in E as [_ E]; exact E.
  - intros fs Hv Hn.
    destruct (@insert_all_dense (map params fs) empty_table 0) as (t' & E);
      try reflexivity; try lia.
    + constructor.
    + apply Forall_map; eapply Forall_impl; [| exact Hv].
      intros f; apply check_row_params.
    + rewrite length_map; lia.
    + exists t'; split; [exact E |].
      apply select_all_insert_all in E as [_ E]; exact E.
  - intros w t fs f la lg le ly rest Hc Hroom Hsel Hin Ha Hv Hg He Hy.
    destruct (@add_form_typed _ w t f _ _ _ _ _ Hc Hroom Hin Ha Hv Hg He Hy)
      as (w1 & t' & Ea & Hr & Hi & Hc1 & Hs).
    assert (Hsel' : select_all t' = map params (fs ++ [f])).
    { rewrite (@select_all_insert _ _ _ Hi), Hsel, map_app; reflexivity. }
    exists w1; split; [exact Ea |]; split; [exact Hr |].
    split; [rewrite Hs, Hsel, map_app; reflexivity |].
    destruct (@list_forms_shows w1 t' (fs ++ [f]) Hc1 Hsel')
      as (w2 & El & Ho & _).
    { intros E; apply app_eq_nil in E as [_ E]; discriminate. }
    exists w2; split; [exact El | exact Ho].
  - intros w t f la lg le ly rest Hc Hfull Hin Ha Hv Hg He Hy.
    split; [apply insert_row_full; exact Hfull |].
    destruct (@add_form_typed_full _ w t f _ _ _ _ _ Hc Hfull Hin Ha Hv Hg He Hy)
      as (w1 & Ea & _ & Hc1).
    exists w1; split; [exact Ea |].
    unfold execute_select; rewrite Hc1; reflexivity.
Qed.

Lemma insert_then_list_witness :
  (exists t', insert_row (params man_45) empty_table = Ok t'
         /\ select_all t' = select_all empty_table ++ [params man_45])
  /\ (exists t', insert_all (map params [woman_20; man_45]) empty_table = Ok t'
           /\ select_all t' = map params [woman_20; man_45])
  /\ (exists w1,
        add_form (B := cpython)
          (snd (open_db (session [u "45"; u "М"; u "в"; u "Д"; u "2"])))
        = (Ok tt, w1)
        /\ stdin w1 = [u "2"]
        /\ execute_select select_all w1 = (Ok (map params ([] ++ [man_45])), w1)
        /\ exists w2,
            list_forms w1 = (Ok tt, w2)
            /\ stdout w2
               = stdout w1 ++ [(nl ++ u "--- Все анкеты ---") ++ nl]
                   ++ shown_lines 1 ([] ++ [man_45])
                   ++ [u "------------------" ++ nl])
  /\ shown_lines 1 ([] ++ [man_45]) = [u " 1)  45 лет, муж, высш, ответ=ДА" ++ nl]
  /\ (exists t',
        insert_all (map params [woman_20; man_45]) foreign_table = Ok t'
        /\ select_all t'
           = select_all foreign_table ++ map params [woman_20; man_45])
  /\ insert_row (params man_45) full_table = Raise OperationalError.
Proof.
  destruct (insert_then_list (B := cpython)) as (H1 & _ & H2 & H3 & _ & H5 & H6).
  split; [apply H1; [unfold valid; simpl; lia | apply has_room_empty] |].
  split; [apply H3; [repeat constructor; simpl; lia | vm_compute; discriminate] |].
  split; [| split; [| split]].
  - apply (H5 (snd (open_db (session [u "45"; u "М"; u "в"; u "Д"; u "2"])))
              empty_table [] man_45 (u "45") (u "М") (u "в") (u "Д") [u "2"]);
      try (vm_compute; reflexivity);
      [apply has_room_empty | unfold valid; simpl; lia].
  - vm_compute; reflexivity.
  - apply (H2 [woman_20; man_45] foreign_table 2);
      [repeat constructor; simpl; lia | reflexivity
       | vm_compute; discriminate].
  - apply (H6 (full_session [u "45"; u "м"; u "в"; u "д"])
              full_table man_45 (u "45") (u "м") (u "в") (u "д") []);
      try (vm_compute; reflexivity);
      [apply no_room_full | unfold valid; simpl; lia].
Defined.


(** C1, as it is stated, fails on a table where no [id] is left: the
    operator types a valid record, [add_form] raises at the [INSERT], and the
    listing is the former listing, without the record. *)
Lemma listing_misses_record_when_ids_run_out :
  valid man_45
  /\ fst (add_form (B := cpython)
            (full_session [u "45"; u "м"; u "в"; u "д"]))
     = Raise OperationalError
  /\ fst (execute_select select_all
            (snd (add_form (B := cpython)
                    (full_session [u "45"; u "м"; u "в"; u "д"]))))
     = Ok (select_all full_table)
  /\ ~ In (params man_45) (select_all full_table)
  /\ ~ (exists t', insert_row (params man_45) full_table = Ok t').
Proof.
  split; [unfold valid; simpl; lia |].
  split; [vm_compute; reflexivity |].
  split; [vm_compute; reflexivity |].
  split.
  - intros [H | []]; vm_compute in H; discriminate.
  - intros (t' & Hi); vm_compute in Hi; discriminate.
Qed.

(** C3. The record that [add_form] assembles from what the readers return
    satisfies the constraints of the table, so the insertion is never
    refused: [add_form] does not raise [IntegrityError].  With an open
    connection it stops at the end of the input, or raises because no [id]
    is left, or inserts the record; while an [id] is left, typing a valid
    record inserts it. *)
Theorem add_form_passes_checks {B : Builtins} :
  (forall w f w',
      read_form w = (Ok f, w') -> valid f /\ check_row (params f) = true)
  /\ (forall w e w', add_form w = (Raise e, w') -> e <> IntegrityError)
  /\ (forall w t r w',
        conn w = Open t ->
        add_form w = (r, w') ->
        r = Raise EOFError
        \/ (r = Raise OperationalError /\ ~ has_room t)
        \/ (r = Ok tt
            /\ exists f t', valid f
                       /\ insert_row (params f) t = Ok t'
                       /\ conn w' = Open t'))
  /\ (forall f t,
        valid f -> has_room t ->
        exists t', insert_row (params f) t = Ok t').
Proof.
  split; [| split; [| split]].
  - intros w f w' E; apply read_form_ok in E as (Hv & _).
    split; [exact Hv | apply check_row_params; exact Hv].
  - intros w e w' E; apply add_form_raise in E as ([-> | [[-> _] | [-> _]]] & _);
      discriminate.
  - intros w t [[]|e] w' Hc E.
    + right; right; split; [reflexivity |].
      apply add_form_ok in E as (f & t0 & t' & Hv & Hc' & Hi & Ho & _).
      exists f, t'; split; [exact Hv |]; split; [congruence | exact Ho].
    + apply add_form_raise in E
        as ([-> | [[_ Hcl] | [-> (t0 & Hc0 & Hfull)]]] & _).
      * left; reflexivity.
      * congruence.
      * right; left; split; [reflexivity |].
        replace t with t0 by congruence; exact Hfull.
  - intros f t Hv Hroom.
    exact (@insert_row_ok _ t Hroom (check_row_params Hv)).
Qed.

Lemma add_form_passes_checks_witness :
  (valid man_45 /\ check_row (params man_45) = true)
  /\ EOFError <> IntegrityError
  /\ (exists t', insert_row (params man_45) empty_table = Ok t').
Proof.
  destruct (add_form_passes_checks (B := cpython)) as (H1 & H2 & _ & H4).
  split; [| split].
  - refine (H1 (session [u "45"; u "м"; u "в"; u "д"]) man_45
               (snd (read_form (B := cpython)
                       (session [u "45"; u "м"; u "в"; u "д"]))) _).
    vm_compute; reflexivity.
  - refine (H2 (session [u "45"; u "м"]) EOFError
               (snd (add_form (B := cpython) (session [u "45"; u "м"]))) _).
    vm_compute; reflexivity.
  - apply H4; [unfold valid; simpl; lia | apply has_room_empty].
Defined.

(* ================================================================== *)
(** ** The menu loop *)
(* ================================================================== *)

Section MenuLoop.

Context {B : Builtins}.

Lemma steady_read_form : steady read_form.
Proof.
  unfold read_form, read_int, read_enum, read_yes_no; auto 20 with io.
Qed.

Lemma steady_add_form : steady add_form.
Proof. unfold add_form; auto using steady_read_form with io. Qed.

Lemma steady_print_forms (rows : list row) :
  forall idx, steady (print_forms idx rows).
Proof.
  induction rows as [|r rows IH]; intros idx; simpl; [auto with io |].
  destruct (form_line idx r); auto with io.
Qed.

Lemma steady_list_forms : steady list_forms.
Proof.
  unfold list_forms; apply steady_bind; [auto with io |].
  intros [|r rows]; auto using steady_print_forms with io.
Qed.

Lemma steady_show_stats : steady show_stats.
Proof. unfold show_stats; auto 20 with io. Qed.

Lemma steady_dispatch (choice : str) : steady (dispatch choice).
Proof.
  unfold dispatch.
  repeat match goal with |- steady (if ?c then _ else _) => destruct c end;
    auto using steady_add_form, steady_list_forms, steady_show_stats with io.
Qed.

(** The menu reads one line and returns it stripped. *)
Lemma menu_ok (w : world) (choice : str) (w' : world) :
  menu w = (Ok choice, w') ->
  exists line,
    stdin w = line :: stdin w'
    /\ choice = strip line
    /\ database w' = database w
    /\ conn w' = conn w.
Proof.
  unfold menu, bind, print, input, ret; simpl.
  destruct (stdin w) as [|line rest]; [discriminate |].
  intros [= <- <-]; exists line; simpl; auto.
Qed.

Lemma menu_line (w : world) (line : str) (rest : list str) :
  stdin w = line :: rest ->
  exists w', menu w = (Ok (strip line), w') /\ stdin w' = rest.
Proof.
  intros Hw; unfold menu, bind, print, input, ret; simpl; rewrite Hw.
  eexists; split; reflexivity.
Qed.

Lemma steady_menu : steady menu.
Proof. unfold menu; auto 20 with io. Qed.

Lemma steady_turn : steady turn.
Proof. unfold turn; auto using steady_menu, steady_dispatch with io. Qed.



(** A turn that does not raise has read at least one line. *)
Lemma turn_reads (w : world) (s : state) (w' : world) :
  turn w = (Ok s, w') ->
  (List.length (stdin w') < List.length (stdin w))%nat.
Proof.
  unfold turn; intros E; apply bind_ok in E as (c & w1 & Em & Ed).
  apply menu_ok in Em as (line & Hin & _).
  apply steady_dispatch in Ed as ((read & Hr) & _).
  rewrite Hin, Hr; simpl; rewrite length_app; lia.
Qed.

(** The loop is over within as many turns as there are lines, and one. *)
Lemma main_loop_total (fuel : nat) :
  forall w,
    (List.length (stdin w) < fuel)%nat ->
    exists r w', main_loop fuel w = Some (r, w').
Proof.
  induction fuel as [|fuel IH]; intros w Hf; [lia |]; simpl.
  destruct (turn w) as [[[|]|e] w1] eqn:E; eauto.
  apply IH; apply turn_reads in E; lia.
Qed.

(** More turns allowed do not change the run. *)
Lemma main_loop_more_fuel (fuel : nat) :
  forall w x fuel',
    main_loop fuel w = Some x -> (fuel <= fuel')%nat ->
    main_loop fuel' w = Some x.
Proof.
  induction fuel as [|fuel IH]; intros w x fuel' E Hf; [discriminate |].
  destruct fuel' as [|fuel']; [lia |]; simpl in *.
  destruct (turn w) as [[[|]|e] w1]; auto.
  apply IH; [exact E | lia].
Qed.

(** The loop does not close the connection. *)
Lemma main_loop_after (fuel : nat) :
  forall w r w', main_loop fuel w = Some (r, w') -> after w w'.
Proof.
  induction fuel as [|fuel IH]; intros w r w' E; [discriminate |].
  simpl in E; destruct (turn w) as [[[|]|e] w1] eqn:Et;
    apply steady_turn in Et.
  - apply IH in E; eapply after_trans; eassumption.
  - injection E as <- <-; assumption.
  - injection E as <- <-; assumption.
Qed.


End MenuLoop.






(** C9. However the loop of [main] ends, by the choice [0] or by an
    exception, the connection is open at that point, and [main] ends the same
    way with the connection closed.  [main] always ends: the bound on the
    number of turns is never reached, and a larger bound gives the same
    run. *)
Theorem main_always_closes {B : Builtins} (w : world) :
  exists r w1 w',
    main_loop (S (List.length (stdin w))) (snd (open_db w)) = Some (r, w1)
    /\ is_open (conn w1)
    /\ main w = Some (r, w')
    /\ conn w' = Closed
    /\ (forall fuel x,
          main_loop fuel (snd (open_db w)) = Some x -> x = (r, w1)).
Proof.
  destruct (@main_loop_total B (S (List.length (stdin w))) (snd (open_db w)))
    as (r & w1 & E); [simpl; lia |].
  exists r, w1, (snd (finally_close r w1)).
  split; [exact E |].
  split; [apply main_loop_after in E as (_ & _ & Ho); apply Ho; exact I |].
  split; [unfold main; simpl in *; rewrite E; reflexivity |].
  split; [reflexivity |].
  intros fuel x Ex.
  apply main_loop_more_fuel
    with (fuel' := Nat.max fuel (S (List.length (stdin w)))) in Ex;
    [| apply Nat.le_max_l].
  apply main_loop_more_fuel
    with (fuel' := Nat.max fuel (S (List.length (stdin w)))) in E;
    [| apply Nat.le_max_r].
  congruence.
Qed.

Lemma main_always_closes_witness :
  exists r w1 w',
    main (B := cpython) (session [u "1"; u "45"]) = Some (r, w')
    /\ conn w' = Closed
    /\ is_open (conn w1)
    /\ main_loop (B := cpython) 7 (snd (open_db (session [u "1"; u "45"])))
       = Some (r, w1).
Proof.
  destruct (main_always_closes (B := cpython) (session [u "1"; u "45"]))
    as (r & w1 & w' & _ & Ho & Em & Hc & Hf).
  exists r, w1, w'; repeat split; try assumption.
  destruct (main_loop (B := cpython) 7
              (snd (open_db (session [u "1"; u "45"])))) as [x|] eqn:E7;
    [| vm_compute in E7; discriminate].
  rewrite (Hf 7%nat x E7); reflexivity.
Defined.

(** The three ways out of [main]: the choice [0], the end of the input, and
    an exception of an operation (here a row that the listing cannot
    print).  The connection is closed in each. *)
Example main_ends_by_quit :
  exists w',
    main (B := cpython) (session [u "3"; u " 0 "; u "2"]) = Some (Ok tt, w')
    /\ conn w' = Closed /\ stdin w' = [u "2"].
Proof. eexists; vm_compute; repeat split. Qed.

Example main_ends_by_eof :
  exists w',
    main (B := cpython) (session [u "1"; u "45"; u "м"])
    = Some (Raise EOFError, w')
    /\ conn w' = Closed /\ database w' = Some empty_table.
Proof. eexists; vm_compute; repeat split. Qed.

Example main_ends_by_key_error :
  exists w',
    main (B := cpython)
      {| stdin := [u "2"; u "0"]; stdout := [];
         database := Some foreign_table; conn := Closed |}
    = Some (Raise KeyError, w')
    /\ conn w' = Closed /\ stdin w' = [u "0"].
Proof. eexists; vm_compute; repeat split. Qed.

(* ================================================================== *)
(** ** Stripping *)
(* ================================================================== *)

Lemma lstrip_spaces (s : str) :
  exists sp, s = sp ++ lstrip s /\ forallb is_space sp = true.
Proof.
  induction s as [|c s (sp & IH & Hsp)]; simpl; [exists []; auto |].
  destruct (is_space c) eqn:E.
  - exists (c :: sp); simpl; rewrite <- IH, E, Hsp; auto.
  - exists []; auto.
Qed.

(** What [lstrip] leaves does not start with white space. *)
Lemma lstrip_head (s : str) (c : codepoint) (rest : str) :
  lstrip s = c :: rest -> is_space c = false.
Proof.
  induction s as [|x s IH]; simpl; [discriminate |].
  destruct (is_space x) eqn:E; [exact IH |].
  intros [= <- _]; exact E.
Qed.

Lemma forallb_rev A (f : A -> bool) (l : list A) :
  forallb f (rev l) = forallb f l.
Proof.
  induction l as [|x l IH]; simpl; [reflexivity |].
  rewrite forallb_app, IH; simpl; rewrite andb_true_r; apply andb_comm.
Qed.

(** [strip] removes the white space around a string, all of it and nothing
    else. *)
Lemma cp_strip_stripped (s : str) : stripped_of s (cp_strip s).
Proof.
  unfold cp_strip.
  destruct (lstrip_spaces s) as (l & Hl & Hls).
  destruct (lstrip_spaces (rev (lstrip s))) as (r & Hr & Hrs).
  assert (Ha : lstrip s = rev (lstrip (rev (lstrip s))) ++ rev r).
  { rewrite <- rev_app_distr, <- Hr, rev_involutive; reflexivity. }
  split; [| split].
  - exists l, (rev r); rewrite <- Ha, <- Hl, forallb_rev; auto.
  - intros c rest Hc; rewrite Hc in Ha; simpl in Ha.
    exact (lstrip_head _ Ha).
  - intros init c Hc.
    apply (f_equal (@rev _)) in Hc.
    rewrite rev_involutive, rev_app_distr in Hc; simpl in Hc.
    exact (lstrip_head _ Hc).
Qed.

(* ------------------------------------------------------------------ *)
(** *** The white space that [int] ignores *)

Lemma to_ascii_space (I : Interpreter) (c : codepoint) :
  is_ascii_space (to_ascii I c) = int_space c.
Proof.
  unfold to_ascii, int_space.
  destruct (c <? 127)%N; [reflexivity |].
  destruct (is_space c); [reflexivity |].
  destruct (decimal_of I c) as [d|]; [| reflexivity].
  unfold is_ascii_space.
  replace (0x30 + d <=? 0x0D)%N with false by (symmetry; apply N.leb_gt; lia).
  replace (0x30 + d =? 0x20)%N with false by (symmetry; apply N.eqb_neq; lia).
  rewrite andb_false_r; reflexivity.
Qed.

Lemma skip_spaces_app (l x : str) :
  forallb is_ascii_space l = true -> skip_spaces (l ++ x) = skip_spaces x.
Proof.
  induction l as [|c l IH]; simpl; [reflexivity |].
  destruct (is_ascii_space c); [exact IH | discriminate].
Qed.

Lemma int_literal_app_r (x r : str) :
  forallb is_ascii_space r = true -> int_literal (x ++ r) = int_literal x.
Proof.
  intros Hr; unfold int_literal; induction x as [|c x IH].
  - simpl app; rewrite <- (app_nil_r r), skip_spaces_app by exact Hr.
    reflexivity.
  - simpl; destruct (is_ascii_space c); [exact IH |].
    change (c :: x ++ r) with ((c :: x) ++ r).
    rewrite rev_app_distr, skip_spaces_app; [reflexivity |].
    rewrite forallb_rev; exact Hr.
Qed.

Lemma int_literal_around (l x r : str) :
  forallb is_ascii_space l = true -> forallb is_ascii_space r = true ->
  int_literal (l ++ x ++ r) = int_literal x.
Proof.
  intros Hl Hr; rewrite <- (@int_literal_app_r x r Hr).
  unfold int_literal; rewrite skip_spaces_app by exact Hl; reflexivity.
Qed.

Lemma forallb_to_ascii (I : Interpreter) (l : str) :
  forallb int_space l = true ->
  forallb is_ascii_space (map (to_ascii I) l) = true.
Proof.
  induction l as [|c l IH]; simpl; [reflexivity |].
  rewrite to_ascii_space; destruct (int_space c); [exact IH | discriminate].
Qed.

(** [int] ignores the white space around a literal. *)
Lemma cp_int_around (I : Interpreter) (l s r : str) :
  forallb int_space l = true -> forallb int_space r = true ->
  cp_int I (l ++ s ++ r) = cp_int I s.
Proof.
  intros Hl Hr; unfold cp_int; rewrite !map_app.
  rewrite int_literal_around by (apply forallb_to_ascii; assumption).
  reflexivity.
Qed.

(** A turn depends on the line of the choice through its stripped form
    only. *)
Lemma turn_strip {B : Builtins} (w : world) (line line' : str)
    (rest : list str) :
  strip line = strip line' ->
  turn (set_stdin (line :: rest) w) = turn (set_stdin (line' :: rest) w).
Proof.
  intros E; unfold turn, menu, bind, print, input, ret; simpl.
  rewrite E; reflexivity.
Qed.

(** C10. The menu returns the line of the choice stripped of the white
    space around it, so that a turn treats [" 0 "] as ["0"] and ["1 "] as
    ["1"]; what [strip] returns is the line without the white space around
    it, all of it and nothing else.  The readers do not strip: they are the
    same whatever [strip] does; [read_enum] and [read_yes_no] refuse a token
    with a space before or after it that they accept once stripped, and
    [read_int] refuses a digit after the separator U+001C, which [strip]
    would have removed.  [read_int] accepts [" 45 "], whatever the tables of
    the interpreter, because the parsing of integers ignores the white space
    around a literal. *)
Theorem menu_strips_choice :
  (forall (B : Builtins) w line rest,
      stdin w = line :: rest ->
      exists w', menu w = (Ok (strip line), w') /\ stdin w' = rest)
  /\ (forall (B : Builtins) w line line' rest,
        strip line = strip line' ->
        turn (set_stdin (line :: rest) w) = turn (set_stdin (line' :: rest) w))
  /\ (cp_strip (u " 0 ") = u "0" /\ cp_strip (u "1 ") = u "1")
  /\ (forall s, stripped_of s (cp_strip s))
  /\ (forall i l s s' prompt lo hi (E : Type) (H : PyEnum E),
        let B := {| int_of := i; lower := l; strip := s |} in
        let B' := {| int_of := i; lower := l; strip := s' |} in
        read_int (B := B) prompt lo hi = read_int (B := B') prompt lo hi
        /\ read_enum (B := B) prompt E = read_enum (B := B') prompt E
        /\ read_yes_no (B := B) prompt = read_yes_no (B := B') prompt)
  /\ (forall I,
        read_enum_body (B := python I) Gender (u " м") = Retry msg_bad_input
        /\ read_enum_body (B := python I) Gender (cp_strip (u " м"))
           = Accept MALE)
  /\ (forall I,
        read_yes_no_body (B := python I) (u "д ") = Retry msg_yes_no
        /\ read_yes_no_body (B := python I) (cp_strip (u "д ")) = Accept true)
  /\ (forall I,
        read_int_body (B := python I) 0 120 [0x1C%N; 0x35%N] = Retry msg_not_int
        /\ read_int_body (B := python I) 0 120 (cp_strip [0x1C%N; 0x35%N])
           = Accept 5)
  /\ (forall I l s r,
        forallb int_space l = true -> forallb int_space r = true ->
        cp_int I (l ++ s ++ r) = cp_int I s)
  /\ (forall I, read_int_body (B := python I) 0 120 (u " 45 ") = Accept 45).
Proof.
  split; [intros B w line rest; apply menu_line |].
  split; [intros B w line line' rest; apply turn_strip |].
  split; [split; vm_compute; reflexivity |].
  split; [apply cp_strip_stripped |].
  split; [intros; repeat split; reflexivity |].
  split; [intros I; split; vm_compute; reflexivity |].
  split; [intros I; split; vm_compute; reflexivity |].
  split; [intros I; split; vm_compute; reflexivity |].
  split; [apply cp_int_around | intros I; vm_compute; reflexivity].
Qed.

Lemma menu_strips_choice_witness :
  (exists w',
      menu (B := cpython) (session [u " 0 "; u "2"]) = (Ok (cp_strip (u " 0 ")), w')
      /\ stdin w' = [u "2"])
  /\ turn (B := cpython) (set_stdin [u "1 "; u "45"] (session []))
     = turn (B := cpython) (set_stdin [u "1"; u "45"] (session []))
  /\ cp_int example_interpreter ([0x09%N; 0xA0%N] ++ u "45" ++ [0x20%N; 0x0A%N])
     = cp_int example_interpreter (u "45").
Proof.
  destruct menu_strips_choice as (H1 & H2 & _ & _ & _ & _ & _ & _ & H9 & _).
  split; [| split].
  - apply (H1 cpython (session [u " 0 "; u "2"])); reflexivity.
  - apply (H2 cpython); vm_compute; reflexivity.
  - apply H9; vm_compute; reflexivity.
Defined.

(* ================================================================== *)
(** ** The readers at the end of the input *)
(* ================================================================== *)

Lemma until_valid_all_refused A (prompt : str) (body : str -> attempt A)
    (lines : list str) :
  Forall (refused body) lines ->
  forall w, exists w', until_valid prompt body lines w = (Raise EOFError, w').
Proof.
  induction 1 as [|l rest (msg & Hl) Hrest IH]; intros w; simpl.
  - eexists; reflexivity.
  - rewrite Hl; apply IH.
Qed.

Lemma reader_stops_at_end A (prompt : str) (body : str -> attempt A) :
  stops_at_end (reader prompt body) body.
Proof.
  intros w; split; [split |].
  - intros (e & w' & E); apply reader_raise in E as (_ & Hr & _); exact Hr.
  - intros Hr; exists EOFError.
    apply until_valid_all_refused; exact Hr.
  - intros e w' E; apply reader_raise in E as (He & _ & Hi & _ & Hd & Hc).
    auto.
Qed.

(** X1. Each of the three readers raises exactly when every line that is
    left is refused, and what it raises then is [EOFError], once all the
    lines are read; the file and the connection are untouched.  The
    [ValueError] of [int] never leaves [read_int]. *)
Theorem readers_stop_at_end {B : Builtins} (prompt : str) :
  (forall lo hi,
      stops_at_end (read_int prompt lo hi) (read_int_body lo hi))
  /\ (forall (E : Type) (H : PyEnum E),
        stops_at_end (read_enum prompt E) (read_enum_body E))
  /\ stops_at_end (read_yes_no prompt) read_yes_no_body.
Proof.
  split; [| split]; intros; apply reader_stops_at_end.
Qed.

Lemma readers_stop_at_end_witness :
  (exists e w',
      read_int (B := cpython) (u "Возраст: ") 0 120
        (session [u "abc"; u "121"; u "-1"]) = (Raise e, w'))
  /\ EOFError = EOFError
     /\ stdin (snd (read_yes_no (B := cpython) (u "?") (session [u "да"]))) = []
     /\ database (snd (read_yes_no (B := cpython) (u "?") (session [u "да"])))
        = database (session [u "да"])
     /\ conn (snd (read_yes_no (B := cpython) (u "?") (session [u "да"])))
        = conn (session [u "да"]).
Proof.
  destruct (readers_stop_at_end (B := cpython) (u "Возраст: ")) as (H1 & _).
  destruct (readers_stop_at_end (B := cpython) (u "?")) as (_ & _ & H3).
  split.
  - apply (proj1 (H1 0 120 (session [u "abc"; u "121"; u "-1"]))).
    repeat constructor; eexists; vm_compute; reflexivity.
  - apply (proj2 (H3 (session [u "да"]))); vm_compute; reflexivity.
Defined.

(* ================================================================== *)
(** ** An interrupted questionnaire *)
(* ================================================================== *)

(** X2. [add_form] inserts one valid record or nothing.  When it returns,
    the view of the connection has that one row more, listed last; when it
    raises (the input ended during the questions, the connection is closed,
    or no [id] is left in the table) the view is as it was, so no part of a
    record is stored.  In both cases the file is as it was: [add_form] does
    not commit. *)
Theorem add_form_all_or_nothing {B : Builtins} (w : world) (r : outcome unit)
    (w' : world) :
  add_form w = (r, w') ->
  database w' = database w
  /\ match r with
     | Ok _ =>
         exists f t t',
           valid f
           /\ conn w = Open t
           /\ insert_row (params f) t = Ok t'
           /\ conn w' = Open t'
           /\ select_all t' = select_all t ++ [params f]
     | Raise e =>
         conn w' = conn w
         /\ (e = EOFError
             \/ (e = ProgrammingError /\ conn w = Closed)
             \/ (e = OperationalError
                 /\ exists t, conn w = Open t /\ ~ has_room t))
     end.
Proof.
  destruct r as [[]|e]; intros E.
  - apply add_form_ok in E as (f & t & t' & Hv & Hc & Hi & Hc' & Hd).
    split; [exact Hd |].
    exists f, t, t'; repeat (split; [assumption |]).
    exact (@select_all_insert _ _ _ Hi).
  - apply add_form_raise in E as (He & Hd & Hc); auto.
Qed.

Lemma add_form_all_or_nothing_witness :
  (database (snd (add_form (B := cpython)
                    (snd (open_db (session [u "33"; u "ж"; u "в"])))))
   = Some empty_table
   /\ conn (snd (add_form (B := cpython)
                   (snd (open_db (session [u "33"; u "ж"; u "в"])))))
      = Open empty_table
   /\ (EOFError = EOFError
       \/ (EOFError = ProgrammingError
           /\ conn (snd (open_db (session [u "33"; u "ж"; u "в"]))) = Closed)
       \/ (EOFError = OperationalError
           /\ exists t,
               conn (snd (open_db (session [u "33"; u "ж"; u "в"]))) = Open t
               /\ ~ has_room t)))
  /\ (database (snd (add_form (B := cpython)
                       (full_session [u "33"; u "ж"; u "в"; u "н"])))
      = Some full_table
      /\ conn (snd (add_form (B := cpython)
                      (full_session [u "33"; u "ж"; u "в"; u "н"])))
         = Open full_table
      /\ (OperationalError = EOFError
          \/ (OperationalError = ProgrammingError
              /\ conn (full_session [u "33"; u "ж"; u "в"; u "н"]) = Closed)
          \/ (OperationalError = OperationalError
              /\ exists t,
                  conn (full_session [u "33"; u "ж"; u "в"; u "н"]) = Open t
                  /\ ~ has_room t))).
Proof.
  split.
  - apply (@add_form_all_or_nothing cpython
             (snd (open_db (session [u "33"; u "ж"; u "в"])))
             (Raise EOFError)).
    vm_compute; reflexivity.
  - apply (@add_form_all_or_nothing cpython
             (full_session [u "33"; u "ж"; u "в"; u "н"])
             (Raise OperationalError)).
    vm_compute; reflexivity.
Defined.

(* ================================================================== *)
(** ** What listing and statistics leave alone *)
(* ================================================================== *)

Lemma nothing_written (w : world) :
  stdin w = stdin w
  /\ database w = database w
  /\ conn w = conn w
  /\ exists written, stdout w = stdout w ++ written.
Proof.
  do 3 (split; [reflexivity |]); exists []; symmetry; apply app_nil_r.
Qed.

Lemma quiet_ret A (a : A) : quiet (ret a).
Proof. intros w r w' [= <- <-]; apply nothing_written. Qed.

Lemma quiet_raise A (e : exn) : quiet (@raise A e).
Proof. intros w r w' [= <- <-]; apply nothing_written. Qed.

Lemma quiet_print (s : str) : quiet (print s).
Proof.
  intros w r w' [= <- <-]; do 3 (split; [reflexivity |]).
  exists [s ++ nl]; reflexivity.
Qed.

Lemma quiet_execute_select A (q : table -> A) : quiet (execute_select q).
Proof.
  intros w r w' E; unfold execute_select in E.
  assert (Hw : w' = w) by (destruct (conn w); injection E; auto).
  rewrite Hw; apply nothing_written.
Qed.

Lemma quiet_bind A C (m : io A) (k : A -> io C) :
  quiet m -> (forall a, quiet (k a)) -> quiet (bind m k).
Proof.
  intros Hm Hk w r w'; unfold bind.
  destruct (m w) as [[a|e] w1] eqn:E; apply Hm in E as (Hi & Hd & Hc & o1 & Ho).
  - intros E2; apply Hk in E2 as (Hi2 & Hd2 & Hc2 & o2 & Ho2).
    do 3 (split; [congruence |]).
    exists (o1 ++ o2); rewrite Ho2, Ho, app_assoc; reflexivity.
  - intros [= <- <-]; do 3 (split; [assumption |]); exists o1; exact Ho.
Qed.

#[local] Hint Resolve quiet_ret quiet_raise quiet_print quiet_execute_select
  quiet_bind : io.

Lemma quiet_print_forms (rows : list row) :
  forall idx, quiet (print_forms idx rows).
Proof.
  induction rows as [|r rows IH]; intros idx; simpl; [auto with io |].
  destruct (form_line idx r); auto with io.
Qed.

Lemma quiet_list_forms : quiet list_forms.
Proof.
  unfold list_forms; apply quiet_bind; [auto with io |].
  intros [|r rows]; auto using quiet_print_forms with io.
Qed.

Lemma quiet_show_stats : quiet show_stats.
Proof. unfold show_stats; auto 20 with io. Qed.

(** X3. [list_forms] and [show_stats] do nothing but write: they read no
    line and leave the file and the connection as they were, however they
    end.  On a closed connection both raise at once and write nothing; on
    an open one [show_stats] always returns, whatever the rows are. *)
Theorem listing_and_stats_only_write :
  quiet list_forms
  /\ quiet show_stats
  /\ (forall w,
        conn w = Closed ->
        list_forms w = (Raise ProgrammingError, w)
        /\ show_stats w = (Raise ProgrammingError, w))
  /\ (forall w t,
        conn w = Open t -> exists w', show_stats w = (Ok tt, w')).
Proof.
  split; [exact quiet_list_forms |].
  split; [exact quiet_show_stats |].
  split.
  - intros w Hc; unfold list_forms, show_stats, bind, execute_select.
    rewrite Hc; auto.
  - intros w t Hc; unfold show_stats, bind, execute_select, print.
    repeat (rewrite Hc; cbv beta iota); eexists; reflexivity.
Qed.

Lemma listing_and_stats_only_write_witness :
  (stdin (snd (list_forms (foreign_session [u "2"])))
   = stdin (foreign_session [u "2"])
   /\ database (snd (list_forms (foreign_session [u "2"])))
      = database (foreign_session [u "2"])
   /\ conn (snd (list_forms (foreign_session [u "2"])))
      = conn (foreign_session [u "2"])
   /\ exists written,
       stdout (snd (list_forms (foreign_session [u "2"])))
       = stdout (foreign_session [u "2"]) ++ written)
  /\ exists w', show_stats (foreign_session []) = (Ok tt, w').
Proof.
  destruct listing_and_stats_only_write as (H1 & _ & _ & H4).
  split.
  - refine (H1 (foreign_session [u "2"]) (Raise KeyError)
               (snd (list_forms (foreign_session [u "2"]))) _).
    vm_compute; reflexivity.
  - apply (H4 _ foreign_table); reflexivity.
Defined.

(* ================================================================== *)
(** ** How a listing ends *)
(* ================================================================== *)

Lemma printable_iff (r : row) :
  printable r = true <-> In (r_education r) [u "н"; u "с"; u "в"].
Proof.
  unfold printable, edu_ru; simpl.
  destruct (str_eqb_spec (r_education r) (u "н")); [intuition |].
  destruct (str_eqb_spec (r_education r) (u "с")); [intuition |].
  destruct (str_eqb_spec (r_education r) (u "в")); [intuition |].
  split; [discriminate | intuition congruence].
Qed.

Lemma check_row_printable (r : row) : check_row r = true -> printable r = true.
Proof.
  unfold check_row; rewrite !andb_true_iff.
  intros [[_ He] _]; apply printable_iff, in_text_In; exact He.
Qed.

(** The loop of the listing prints the rows up to the first that it cannot
    print, and raises [KeyError] there. *)
Lemma print_forms_outcome (rows : list row) :
  forall idx w,
    exists w',
      print_forms idx rows w
      = ((if forallb printable rows then Ok tt else Raise KeyError), w')
      /\ stdout w' = stdout w ++ listing idx rows.
Proof.
  induction rows as [|r rows IH]; intros idx w; simpl.
  - exists w; rewrite app_nil_r; auto.
  - unfold printable at 1, form_line.
    destruct (edu_ru (r_education r)) as [edu|]; simpl.
    + unfold bind, print; cbv beta iota.
      match goal with
      | |- context [print_forms _ rows ?w1] =>
          destruct (IH (idx + 1) w1) as (w' & E & Ho)
      end.
      rewrite E; exists w'; split; [reflexivity |].
      rewrite Ho; cbn [stdout write]; rewrite <- app_assoc; reflexivity.
    + exists w; rewrite app_nil_r; auto.
Qed.

Lemma listing_stops (pre : list row) (bad : row) (post : list row) :
  forallb printable pre = true -> printable bad = false ->
  forall idx,
    listing idx (pre ++ bad :: post) = listing idx pre
    /\ List.length (listing idx pre) = List.length pre.
Proof.
  intros Hpre Hbad; induction pre as [|r pre IH]; intros idx; simpl.
  - unfold form_line; unfold printable in Hbad.
    destruct (edu_ru (r_education bad)); [discriminate | auto].
  - simpl in Hpre; apply andb_true_iff in Hpre as [Hr Hpre].
    unfold form_line; unfold printable in Hr.
    destruct (edu_ru (r_education r)); [| discriminate].
    destruct (IH Hpre (idx + 1)) as [E1 E2].
    rewrite E1; simpl; rewrite E2; auto.
Qed.

Lemma select_all_nil (t : table) : select_all t = [] <-> forms t = [].
Proof.
  unfold select_all; split; intros E.
  - apply map_eq_nil in E.
    apply Permutation_nil; rewrite <- E; symmetry; apply order_by_id_perm.
  - rewrite E; reflexivity.
Qed.

Lemma list_forms_rows (w : world) (t : table) :
  conn w = Open t -> forms t <> [] ->
  exists w',
    list_forms w
    = ((if forallb printable (select_all t) then Ok tt else Raise KeyError),
       w')
    /\ stdout w'
       = stdout w ++ [(nl ++ u "--- Все анкеты ---") ++ nl]
           ++ listing 1 (select_all t)
           ++ (if forallb printable (select_all t)
               then [u "------------------" ++ nl] else []).
Proof.
  intros Hc Hne.
  unfold list_forms, bind, execute_select; rewrite Hc.
  destruct (select_all t) as [|r rows] eqn:Hs;
    [apply select_all_nil in Hs; contradiction |].
  unfold print at 1.
  destruct (print_forms_outcome (r :: rows) 1
              (write ((nl ++ u "--- Все анкеты ---") ++ nl) w))
    as (w1 & -> & Ho).
  destruct (forallb printable (r :: rows)).
  - eexists; split; [reflexivity |].
    cbn [stdout write] in *; rewrite Ho, <- !app_assoc; reflexivity.
  - exists w1; split; [reflexivity |].
    cbn [stdout write] in *; rewrite Ho, app_nil_r, <- !app_assoc.
    reflexivity.
Qed.

(** X4. For a table whose rows hold an integer, two texts and an integer,
    the types of the columns of [SCHEMA_SQL] (a [row]; a file where a column
    holds a value of another type is not covered).  On such a table that is
    not empty [list_forms] prints the heading and then the rows in the order
    of the [SELECT].  It returns, after a rule,
    when the education code of every row is a key of its dictionary, which
    is the case when the rows satisfy the constraints of the table;
    otherwise it raises [KeyError] at the first row whose code is not a
    key: the rows before that one are printed, one line each, and nothing
    after them. *)
Theorem list_forms_outcome (w : world) (t : table) :
  conn w = Open t -> forms t <> [] ->
  (exists w',
      list_forms w
      = ((if forallb printable (select_all t) then Ok tt else Raise KeyError),
         w')
      /\ stdout w'
         = stdout w ++ [(nl ++ u "--- Все анкеты ---") ++ nl]
             ++ listing 1 (select_all t)
             ++ (if forallb printable (select_all t)
                 then [u "------------------" ++ nl] else []))
  /\ (table_ok t -> forallb printable (select_all t) = true)
  /\ (forall r, printable r = true
                <-> In (r_education r) [u "н"; u "с"; u "в"])
  /\ (forall pre bad post,
        select_all t = pre ++ bad :: post ->
        forallb printable pre = true -> printable bad = false ->
        forallb printable (select_all t) = false
        /\ listing 1 (select_all t) = listing 1 pre
        /\ List.length (listing 1 pre) = List.length pre).
Proof.
  intros Hc Hne.
  split; [| split; [| split; [exact printable_iff |]]].
  - exact (@list_forms_rows w t Hc Hne).
  - intros Ht; apply table_ok_select_all in Ht.
    apply forallb_forall; intros r Hr.
    apply check_row_printable; revert r Hr; apply Forall_forall; exact Ht.
  - intros pre bad post Hs Hpre Hbad.
    split.
    + rewrite Hs, forallb_app; simpl; rewrite Hbad, andb_false_r; reflexivity.
    + rewrite Hs; apply listing_stops; assumption.
Qed.

Lemma list_forms_outcome_witness :
  (exists w',
      list_forms (foreign_session [])
      = ((if forallb printable (select_all foreign_table)
          then Ok tt else Raise KeyError), w')
      /\ stdout w'
         = stdout (foreign_session [])
             ++ [(nl ++ u "--- Все анкеты ---") ++ nl]
             ++ listing 1 (select_all foreign_table)
             ++ (if forallb printable (select_all foreign_table)
                 then [u "------------------" ++ nl] else []))
  /\ forallb printable (select_all foreign_table) = false
  /\ listing 1 (select_all foreign_table) = listing 1 []
  /\ List.length (listing 1 []) = @List.length row [].
Proof.
  assert (Hne : forms foreign_table <> []) by discriminate.
  destruct (@list_forms_outcome (foreign_session []) foreign_table
              eq_refl Hne) as (H1 & _ & _ & H4).
  split; [exact H1 |].
  apply (H4 [] {| r_age := 30; r_gender := u "м"; r_education := u "x";
                  r_answer_yes := 1 |} []); vm_compute; reflexivity.
Defined.

(* ================================================================== *)
(** ** The empty table *)
(* ================================================================== *)

Lemma count_where_empty (q : list clause) (t : table) :
  forms t = [] -> count_where q t = 0.
Proof. intros E; unfold count_where; rewrite E; reflexivity. Qed.

(** X5. With no database file, [open_db] makes an empty table and commits
    it.  [list_forms] prints its one-line message for an empty table when,
    and only when, the table has no row; on such a table the [SELECT] of the
    listing returns nothing and every count is zero. *)
Theorem empty_table_listing (w : world) (t : table) :
  conn w = Open t ->
  (list_forms w = (Ok tt, write (u "Список анкет пуст." ++ nl) w)
   <-> forms t = [])
  /\ (forms t = [] -> select_all t = [] /\ forall q, count_where q t = 0)
  /\ (forall w0, database w0 = None -> synced (snd (open_db w0)) empty_table).
Proof.
  intros Hc; split; [split | split].
  - intros El; destruct (forms t) as [|x l] eqn:Hf; [reflexivity |].
    destruct (@list_forms_rows w t Hc) as (w' & El' & Ho);
      [rewrite Hf; discriminate |].
    rewrite El in El'; injection El' as _ <-.
    cbn [stdout write] in Ho; apply app_inv_head in Ho.
    apply (f_equal (hd [])) in Ho; apply (f_equal (hd 0%N)) in Ho.
    vm_compute in Ho; discriminate.
  - intros Hf; apply select_all_nil in Hf.
    unfold list_forms, bind, execute_select; rewrite Hc, Hf; reflexivity.
  - intros Hf; split; [apply select_all_nil; exact Hf |].
    intros q; apply count_where_empty; exact Hf.
  - intros w0 Hd; unfold synced, open_db; rewrite Hd; simpl; auto.
Qed.

Lemma empty_table_listing_witness :
  forms empty_table = []
  /\ (select_all empty_table = [] /\ forall q, count_where q empty_table = 0)
  /\ synced (snd (open_db (session [u "2"]))) empty_table.
Proof.
  destruct (@empty_table_listing (snd (open_db (session [u "2"]))) empty_table
              eq_refl) as (H1 & H2 & H3).
  split; [apply H1; vm_compute; reflexivity |].
  split; [apply H2; reflexivity | apply H3; reflexivity].
Defined.

(* ================================================================== *)
(** ** The three counts together *)
(* ================================================================== *)

Lemma male_is_not_female : u "м" <> u "ж".
Proof. vm_compute; discriminate. Qed.

(** No row is counted twice. *)
Lemma stats_exclusive (r : row) :
  (where_all men_40_yes r = true -> where_all women_30_no r = false)
  /\ (where_all men_40_yes r = true -> where_all men_25_yes r = false)
  /\ (where_all women_30_no r = true -> where_all men_25_yes r = false).
Proof.
  unfold where_all, men_40_yes, women_30_no, men_25_yes; simpl.
  destruct (str_eqb_spec (r_gender r) (u "м")) as [Em|Em];
    destruct (str_eqb_spec (r_gender r) (u "ж")) as [Ef|Ef]; simpl;
    try (exfalso; apply male_is_not_female; congruence);
    repeat split; try discriminate; try reflexivity.
  rewrite !andb_true_iff, !andb_false_iff.
  intros [H40 _]; left; apply Z.ltb_lt in H40; apply Z.ltb_ge; lia.
Qed.

Lemma filters_exclusive (X : Type) (p1 p2 p3 : X -> bool) (l : list X) :
  (forall x, (p1 x = true -> p2 x = false)
             /\ (p1 x = true -> p3 x = false)
             /\ (p2 x = true -> p3 x = false)) ->
  (List.length (filter p1 l) + List.length (filter p2 l)
   + List.length (filter p3 l) <= List.length l)%nat.
Proof.
  intros Hx; induction l as [|x l IH]; simpl; [lia |].
  destruct (Hx x) as (H12 & H13 & H23).
  destruct (p1 x), (p2 x), (p3 x); simpl;
    try (specialize (H12 eq_refl)); try (specialize (H13 eq_refl));
    try (specialize (H23 eq_refl)); try discriminate; lia.
Qed.

(** X6. The three statistics count disjoint sets of records: no row
    satisfies two of them, so that the three counts together never exceed
    the number of rows of the table, and none is negative. *)
Theorem stats_count_disjoint (t : table) :
  (forall r,
      (where_all men_40_yes r = true -> where_all women_30_no r = false)
      /\ (where_all men_40_yes r = true -> where_all men_25_yes r = false)
      /\ (where_all women_30_no r = true -> where_all men_25_yes r = false))
  /\ 0 <= count_where men_40_yes t
  /\ 0 <= count_where women_30_no t
  /\ 0 <= count_where men_25_yes t
  /\ count_where men_40_yes t + count_where women_30_no t
     + count_where men_25_yes t <= Z.of_nat (List.length (forms t)).
Proof.
  split; [exact stats_exclusive |].
  unfold count_where.
  pose proof (@filters_exclusive _ (where_all men_40_yes)
                (where_all women_30_no) (where_all men_25_yes)
                (map snd (forms t)) stats_exclusive) as H.
  rewrite length_map in H; lia.
Qed.

Lemma stats_count_disjoint_witness :
  where_all women_30_no (params man_45) = false
  /\ where_all men_25_yes (params man_45) = false.
Proof.
  destruct (stats_count_disjoint empty_table) as (H & _).
  destruct (H (params man_45)) as (H1 & H2 & _).
  split; [apply H1 | apply H2]; vm_compute; reflexivity.
Defined.

(* ================================================================== *)
(** ** What a run leaves in the file *)
(* ================================================================== *)

Lemma insert_all_app (a b : list row) :
  forall t t1 t2,
    insert_all a t = Ok t1 -> insert_all b t1 = Ok t2 ->
    insert_all (a ++ b) t = Ok t2.
Proof.
  induction a as [|r a IH]; intros t t1 t2 Ea Eb; simpl in *.
  - injection Ea as <-; exact Eb.
  - destruct (insert_row r t) as [t'|e]; [| discriminate].
    eapply IH; eassumption.
Qed.

Lemma insert_all_checked (rs : list row) :
  forall t t',
    insert_all rs t = Ok t' ->
    Forall (fun r => check_row r = true) rs
    /\ select_all t' = select_all t ++ rs
    /\ (table_ok t -> table_ok t').
Proof.
  induction rs as [|r rs IH]; intros t t' E; simpl in E.
  - injection E as <-; rewrite app_nil_r; auto.
  - destruct (insert_row r t) as [t1|e] eqn:Hi; [| discriminate].
    destruct (IH _ _ E) as (Hc & Hs & Hok).
    pose proof (insert_row_inv _ _ Hi) as [Hr _].
    split; [constructor; assumption |].
    split.
    + rewrite Hs, (@select_all_insert _ _ _ Hi), <- app_assoc; reflexivity.
    + intros Ht; apply Hok; eapply table_ok_insert; eassumption.
Qed.

(** A run of a quiet computation keeps the connection and the file in
    step. *)
Lemma quiet_synced A (m : io A) (w : world) (t : table) (r : outcome A)
    (w' : world) :
  quiet m -> synced w t -> m w = (r, w') -> synced w' t.
Proof.
  intros Hq [Hc Hd] E; apply Hq in E as (_ & Hd' & Hc' & _).
  split; congruence.
Qed.

Section Run.

Context {B : Builtins}.

Lemma menu_frame (w : world) (r : outcome str) (w' : world) :
  menu w = (r, w') -> database w' = database w /\ conn w' = conn w.
Proof.
  unfold menu, bind, print, input, ret; simpl.
  destruct (stdin w); intros [= <- <-]; auto.
Qed.

(** After a choice is served, served well or not, the file holds what the
    connection sees: the table of before with at most one valid row
    more. *)
Lemma dispatch_synced (choice : str) (w : world) (t : table)
    (r : outcome state) (w' : world) :
  synced w t ->
  dispatch choice w = (r, w') ->
  exists t' added,
    synced w' t' /\ insert_all added t = Ok t'.
Proof.
  intros Hs; pose proof Hs as [Hc Hd]; unfold dispatch.
  destruct (str_eqb choice (u "1")).
  { intros E; destruct r as [s|e].
    - apply bind_ok in E as ([] & w1 & Ea & E).
      apply bind_ok in E as ([] & w2 & Ec & E).
      injection E as _ <-.
      apply add_form_ok in Ea as (f & t0 & t' & _ & Hc0 & Hi & Hc1 & _).
      unfold commit in Ec; rewrite Hc1 in Ec; injection Ec as <-.
      assert (t0 = t) as -> by congruence.
      exists t', [params f]; split; [split; simpl; auto |].
      simpl; rewrite Hi; reflexivity.
    - apply bind_raise in E as [E | ([] & w1 & Ea & E)].
      + apply add_form_raise in E as (_ & Hd' & Hc').
        exists t, []; split; [split; congruence | reflexivity].
      + apply add_form_ok in Ea as (f & t0 & t' & _ & _ & _ & Hc1 & _).
        apply bind_raise in E as [E | (? & ? & _ & E)]; [| discriminate].
        unfold commit in E; rewrite Hc1 in E; discriminate. }
  assert (Q : forall m : io unit,
             quiet m ->
             forall r w', (m ;; ret Running) w = (r, w') ->
                     exists t' added,
                       synced w' t' /\ insert_all added t = Ok t').
  { intros m Hm r0 w0 E; exists t, []; split; [| reflexivity].
    eapply quiet_synced; [| exact Hs | exact E]; auto with io. }
  destruct (str_eqb choice (u "2"));
    [apply (Q list_forms quiet_list_forms) |].
  destruct (str_eqb choice (u "3"));
    [apply (Q show_stats quiet_show_stats) |].
  destruct (str_eqb choice (u "0")).
  - intros [= <- <-]; exists t, []; auto.
  - apply (Q (print (u "Нет такого пункта.")) (@quiet_print _)).
Qed.

Lemma turn_synced (w : world) (t : table) (r : outcome state) (w' : world) :
  synced w t ->
  turn w = (r, w') ->
  exists t' added, synced w' t' /\ insert_all added t = Ok t'.
Proof.
  intros [Hc Hd]; unfold turn, bind.
  destruct (menu w) as [[c|e] w1] eqn:Em; apply menu_frame in Em as [Hd1 Hc1].
  - apply dispatch_synced; split; congruence.
  - intros [= <- <-]; exists t, []; split; [split; congruence | reflexivity].
Qed.

Lemma main_loop_synced (fuel : nat) :
  forall w t r w',
    synced w t ->
    main_loop fuel w = Some (r, w') ->
    exists t' added, synced w' t' /\ insert_all added t = Ok t'.
Proof.
  induction fuel as [|fuel IH]; intros w t r w' Hs E; [discriminate |].
  simpl in E; destruct (turn w) as [[[|]|e] w1] eqn:Et;
    destruct (turn_synced Hs Et) as (t1 & a1 & Hs1 & Ha1).
  - destruct (IH _ _ _ _ Hs1 E) as (t2 & a2 & Hs2 & Ha2).
    exists t2, (a1 ++ a2); split; [exact Hs2 |].
    eapply insert_all_app; eassumption.
  - injection E as <- <-; eauto.
  - injection E as <- <-; eauto.
Qed.

Lemma open_db_synced (w : world) : synced (snd (open_db w)) (stored w).
Proof. unfold synced, stored, open_db; simpl; auto. Qed.

(** [main] in two steps: the loop, then the [finally] block. *)
Lemma main_inv (w : world) (r : outcome unit) (w' : world) :
  main w = Some (r, w') ->
  exists w1,
    main_loop (S (List.length (stdin w))) (snd (open_db w)) = Some (r, w1)
    /\ w' = write (u "До свидания!" ++ nl) (set_conn Closed w1).
Proof.
  intros E; unfold main in E.
  change (open_db w) with (@Ok unit tt, snd (open_db w)) in E.
  cbv beta iota in E.
  destruct (main_loop (S (List.length (stdin (snd (open_db w)))))
              (snd (open_db w))) as [[r1 w1]|] eqn:El; [| discriminate].
  unfold finally_close, bind, close, print in E; injection E as <- <-.
  exists w1; split; [exact El | reflexivity].
Qed.

End Run.

(** X7. When the loop of [main] ends, by the choice [0] or by an exception,
    the connection has nothing left to commit: its view is the content of
    the file.  Closing it therefore loses no record, and the file after
    [main] is what the connection saw last. *)
Theorem main_commits_every_insert {B : Builtins} (w : world)
    (r : outcome unit) (w' : world) :
  main w = Some (r, w') ->
  exists w1 t1,
    main_loop (S (List.length (stdin w))) (snd (open_db w)) = Some (r, w1)
    /\ conn w1 = Open t1
    /\ database w1 = Some t1
    /\ database w' = Some t1
    /\ conn w' = Closed.
Proof.
  intros E; apply main_inv in E as (w1 & El & ->).
  destruct (main_loop_synced _ (open_db_synced w) El)
    as (t1 & added & [Hc Hd] & _).
  exists w1, t1; simpl; auto.
Qed.

Lemma main_commits_every_insert_witness :
  exists r w' w1 t1,
    main (B := cpython) (session [u "1"; u "20"; u "ж"; u "с"; u "н"])
    = Some (r, w')
    /\ conn w1 = Open t1
    /\ database w1 = Some t1
    /\ database w' = Some t1
    /\ conn w' = Closed.
Proof.
  destruct (main (B := cpython) (session [u "1"; u "20"; u "ж"; u "с"; u "н"]))
    as [[r w']|] eqn:E; [| vm_compute in E; discriminate].
  destruct (main_commits_every_insert _ E) as (w1 & t1 & _ & Hc & Hd & Hd' & Hc').
  exists r, w', w1, t1; auto.
Defined.

(** X8. A run of [main] only appends: the file then lists the rows it had
    before the run, in the same order, followed by the rows added, and each
    of these satisfies the constraints of the table.  So no count is lower
    after the run than before, and if every row satisfied the constraints
    before the run, every row does after it. *)
Theorem main_appends_valid_rows {B : Builtins} (w : world)
    (r : outcome unit) (w' : world) :
  main w = Some (r, w') ->
  exists t' added,
    database w' = Some t'
    /\ Forall (fun r => check_row r = true) added
    /\ select_all t' = select_all (stored w) ++ added
    /\ (forall q, count_where q (stored w) <= count_where q t')
    /\ (table_ok (stored w) -> table_ok t').
Proof.
  intros E; apply main_inv in E as (w1 & El & ->).
  destruct (main_loop_synced _ (open_db_synced w) El)
    as (t1 & added & [Hc Hd] & Ha).
  destruct (insert_all_checked _ _ Ha) as (Hv & Hs & Hok).
  exists t1, added; simpl; repeat (split; [assumption |]).
  split; [| exact Hok].
  intros q; clear - Ha; revert Ha; generalize (stored w) as t.
  induction added as [|x l IH]; intros t Ha; simpl in Ha.
  - injection Ha as <-; lia.
  - destruct (insert_row x t) as [t2|] eqn:Hi; [| discriminate].
    apply IH in Ha; rewrite (@count_where_insert q _ _ _ Hi) in Ha.
    destruct (where_all q x); lia.
Qed.

Lemma main_appends_valid_rows_witness :
  exists r w' t' added,
    main (B := cpython)
      {| stdin := [u "1"; u "20"; u "ж"; u "с"; u "н"; u "2"];
         stdout := []; database := Some foreign_table; conn := Closed |}
    = Some (r, w')
    /\ database w' = Some t'
    /\ Forall (fun r => check_row r = true) added
    /\ select_all t' = select_all foreign_table ++ added.
Proof.
  destruct (main (B := cpython)
              {| stdin := [u "1"; u "20"; u "ж"; u "с"; u "н"; u "2"];
                 stdout := []; database := Some foreign_table;
                 conn := Closed |})
    as [[r w']|] eqn:E; [| vm_compute in E; discriminate].
  destruct (main_appends_valid_rows _ E) as (t' & added & Hd & Hv & Hs & _).
  exists r, w', t', added; auto.
Defined.

(* ================================================================== *)
(** ** The rows of the listing *)
(* ================================================================== *)

(** X9. The [SELECT] of the listing returns every row of the table once,
    none left out and none repeated, in the order of the [id], however the
    rows are laid out in the table. *)
Theorem select_all_every_row_once (t : table) :
  Permutation (map snd (forms t)) (select_all t)
  /\ List.length (select_all t) = List.length (forms t)
  /\ exists l,
      select_all t = map snd l
      /\ Permutation (forms t) l
      /\ StronglySorted by_id l.
Proof.
  pose proof (order_by_id_perm (forms t)) as Hp.
  split; [apply Permutation_map; exact Hp |].
  split.
  - unfold select_all; rewrite length_map.
    symmetry; apply Permutation_length; exact Hp.
  - exists (order_by_id (forms t)); split; [reflexivity |].
    split; [exact Hp | apply order_by_id_sorted].
Qed.

(* ------------------------------------------------------------------ *)
(** *** A line tells its record *)

Lemma app_same_length (X : Type) (a a' b b' : list X) :
  List.length a = List.length a' -> a ++ b = a' ++ b' -> a = a' /\ b = b'.
Proof.
  revert a'; induction a as [|x a IH]; intros [|x' a'] Hl E;
    simpl in *; try discriminate; [auto |].
  injection E as -> E; injection Hl as Hl.
  destruct (IH _ Hl E) as [-> ->]; auto.
Qed.

Lemma ages_complete (a : Z) : 0 <= a <= 120 -> In a ages.
Proof.
  intros Ha; unfold ages.
  rewrite <- (Z2Nat.id a) by lia.
  apply in_map, in_seq; lia.
Qed.

Lemma age_column_width (a : Z) :
  0 <= a <= 120 -> List.length (age_column a) = 3%nat.
Proof.
  intros Ha; apply ages_complete in Ha.
  assert (H : forallb (fun a => Nat.eqb (List.length (age_column a)) 3) ages
              = true) by (vm_compute; reflexivity).
  rewrite forallb_forall in H; apply Nat.eqb_eq, H; exact Ha.
Qed.

Lemma age_column_injective (a a' : Z) :
  0 <= a <= 120 -> 0 <= a' <= 120 ->
  age_column a = age_column a' -> a = a'.
Proof.
  intros Ha Ha' E; apply ages_complete in Ha, Ha'.
  assert (H : forallb
                (fun a =>
                   forallb
                     (fun a' =>
                        implb (str_eqb (age_column a) (age_column a'))
                          (a =? a'))
                     ages)
                ages = true) by (vm_compute; reflexivity).
  rewrite forallb_forall in H; specialize (H a Ha).
  rewrite forallb_forall in H; specialize (H a' Ha').
  rewrite E, str_eqb_refl in H; apply Z.eqb_eq; exact H.
Qed.

Lemma form_line_tail (idx : Z) (r : row) :
  form_line idx r
  = match edu_ru (r_education r) with
    | Some edu => Ok (rjust 2 (str_of_Z idx) ++ u ") " ++ line_tail r edu)
    | None => Raise KeyError
    end.
Proof. reflexivity. Qed.

(** The fields of a row that satisfies the constraints. *)
Lemma check_row_inv (r : row) :
  check_row r = true ->
  0 <= r_age r <= 120
  /\ (r_gender r = u "м" \/ r_gender r = u "ж")
  /\ (r_education r = u "н" \/ r_education r = u "с"
      \/ r_education r = u "в")
  /\ (r_answer_yes r = 0 \/ r_answer_yes r = 1).
Proof.
  unfold check_row; rewrite !andb_true_iff, !in_text_In, orb_true_iff.
  rewrite !Z.leb_le, !Z.eqb_eq; simpl.
  intros [[[[? ?] ?] ?] ?]; intuition.
Qed.

Lemma form_line_injective (idx : Z) (r r' : row) :
  check_row r = true -> check_row r' = true ->
  form_line idx r = form_line idx r' ->
  r = r'.
Proof.
  intros Hr Hr' E.
  apply check_row_inv in Hr as (Ha & Hg & He & Hy).
  apply check_row_inv in Hr' as (Ha' & Hg' & He' & Hy').
  rewrite !form_line_tail in E.
  destruct r as [a g e y], r' as [a' g' e' y']; simpl in *.
  assert (T : forall edu edu' : str,
             line_tail (Build_row a g e y) edu
             = line_tail (Build_row a' g' e' y') edu' ->
             age_column a = age_column a'
             /\ u " лет, " ++ gender_ru g ++ u ", " ++ edu ++ u ", ответ="
                  ++ answer_ru y
                = u " лет, " ++ gender_ru g' ++ u ", " ++ edu' ++ u ", ответ="
                    ++ answer_ru y').
  { intros edu edu' H; apply app_same_length in H; [exact H |].
    change (List.length (age_column a) = List.length (age_column a')).
    rewrite !age_column_width by assumption; reflexivity. }
  destruct Hg as [-> | ->], He as [-> | [-> | ->]], Hy as [-> | ->],
    Hg' as [-> | ->], He' as [-> | [-> | ->]], Hy' as [-> | ->];
    (change (edu_ru (u "н")) with (Some (u "нач")) in E
     || change (edu_ru (u "с")) with (Some (u "сред")) in E
     || change (edu_ru (u "в")) with (Some (u "высш")) in E);
    (change (edu_ru (u "н")) with (Some (u "нач")) in E
     || change (edu_ru (u "с")) with (Some (u "сред")) in E
     || change (edu_ru (u "в")) with (Some (u "высш")) in E || idtac);
    injection E as E; apply app_inv_head in E;
    apply (app_inv_head (u ") ")) in E;
    apply T in E as [Ea Et];
    apply age_column_injective in Ea; try assumption; subst a';
    first [reflexivity | vm_compute in Et; discriminate].
Qed.

(** X10. A record that satisfies the constraints of the table is printed,
    and two such records printed with the same number give the same line
    only if they are the same record: the age, the gender, the education and
    the answer can be read back from a line of the listing. *)
Theorem form_line_tells_record (idx : Z) (r r' : row) :
  check_row r = true -> check_row r' = true ->
  (exists line, form_line idx r = Ok line)
  /\ (form_line idx r = form_line idx r' <-> r = r').
Proof.
  intros Hr Hr'; split; [apply form_line_ok; exact Hr |].
  split; [apply form_line_injective; assumption | intros ->; reflexivity].
Qed.

Lemma form_line_tells_record_witness :
  form_line 1 (params man_45) <> form_line 1 (params woman_20).
Proof.
  intros E.
  apply (@form_line_tells_record 1 (params man_45) (params woman_20)
           eq_refl eq_refl) in E.
  vm_compute in E; discriminate.
Defined.

(* ================================================================== *)
(** ** The prompt of an enumeration *)
(* ================================================================== *)

Lemma join_In (sep p : str) (parts : list str) :
  In p parts -> exists a b, join sep parts = a ++ p ++ b.
Proof.
  induction parts as [|p0 ps IH]; [intros [] |].
  destruct ps as [|p1 ps].
  - intros [-> | []]; exists [], []; simpl; rewrite app_nil_r; reflexivity.
  - intros [-> | Hp].
    + exists [], (sep ++ join sep (p1 :: ps)); reflexivity.
    + destruct (IH Hp) as (a & b & E).
      exists (p0 ++ sep ++ a), b.
      change (join sep (p0 :: p1 :: ps)) with (p0 ++ sep ++ join sep (p1 :: ps)).
      rewrite E, <- !app_assoc; reflexivity.
Qed.

Lemma asked_first A (prompt : str) (body : str -> attempt A)
    (skipped : list str) :
  exists more, asked prompt body skipped = prompt :: more.
Proof.
  destruct skipped as [|l rest]; simpl; [eauto |].
  destruct (body l); eauto.
Qed.

Lemma reader_asks_first A (prompt : str) (body : str -> attempt A)
    (w : world) (r : outcome A) (w' : world) :
  reader prompt body w = (r, w') ->
  exists more, stdout w' = stdout w ++ prompt :: more.
Proof.
  destruct r as [a|e]; intros E.
  - apply reader_ok in E as (skipped & ? & _ & _ & _ & Ho & _).
    destruct (asked_first prompt body skipped) as (more & Hm).
    exists more; rewrite Ho, Hm; reflexivity.
  - apply reader_raise in E as (_ & _ & _ & Ho & _).
    destruct (asked_first prompt body (stdin w)) as (more & Hm).
    exists more; rewrite Ho, Hm; reflexivity.
Qed.

(** X11. Whatever is typed, the first thing [read_enum] writes is its
    prompt, and the prompt shows the token of every member of the
    enumeration: the text given, then the tokens between brackets. *)
Theorem read_enum_prompt_shows_tokens {B : Builtins} (E : Type) `{PyEnum E}
    (prompt : str) (w : world) (r : outcome E) (w' : world) :
  read_enum prompt E w = (r, w') ->
  exists shown more,
    stdout w' = stdout w ++ (prompt ++ u " (" ++ shown ++ u "): ") :: more
    /\ forall e, In e members -> exists a b, shown = a ++ value e ++ b.
Proof.
  unfold read_enum; intros Er.
  apply reader_asks_first in Er as (more & Ho).
  exists (join (u "/") (map value members)), more; split; [exact Ho |].
  intros e He; apply join_In, in_map; exact He.
Qed.

Lemma read_enum_prompt_shows_tokens_witness :
  exists shown more,
    stdout (snd (read_enum (B := cpython) (u "Пол") Gender
                   (session [u "?"; u "Ж"])))
    = stdout (session [u "?"; u "Ж"])
        ++ (u "Пол" ++ u " (" ++ shown ++ u "): ") :: more
    /\ forall e : Gender,
        In e members -> exists a b, shown = a ++ value e ++ b.
Proof.
  refine (@read_enum_prompt_shows_tokens cpython Gender _ (u "Пол")
            (session [u "?"; u "Ж"]) (Ok FEMALE)
            (snd (read_enum (B := cpython) (u "Пол") Gender
                    (session [u "?"; u "Ж"]))) _).
  vm_compute; reflexivity.
Defined.

(* ================================================================== *)
(** ** The rows the table admits *)
(* ================================================================== *)

(** X12. Among the rows that hold an integer, two texts and an integer,
    the types of the columns of [SCHEMA_SQL] (a [row]; the constraints on a
    value of another type, such as a real age, are not covered), the
    constraints of the table admit exactly the rows that [add_form] can
    bind: such a row satisfies them when, and only when, it is the tuple of
    a record whose age is between 0 and 120, and that record is then the
    only one. *)
Theorem check_row_iff_params (r : row) :
  check_row r = true
  <-> exists f, valid f /\ params f = r
           /\ forall f', params f' = r -> f' = f.
Proof.
  split.
  - intros Hr; apply check_row_inv in Hr as (Ha & Hg & He & Hy).
    destruct r as [a g e y]; simpl in *.
    assert (G : exists x : Gender, value x = g)
      by (destruct Hg as [-> | ->]; [exists MALE | exists FEMALE]; reflexivity).
    assert (D : exists x : Education, value x = e)
      by (destruct He as [-> | [-> | ->]];
          [exists PRIMARY | exists SECONDARY | exists HIGHER]; reflexivity).
    assert (Y : exists b : bool, int_of_bool b = y)
      by (destruct Hy as [-> | ->]; [exists false | exists true]; reflexivity).
    destruct G as (x & <-), D as (d & <-), Y as (b & <-).
    exists (Build_Form a x d b); split; [exact Ha |].
    split; [reflexivity |].
    intros f' Hf; apply params_injective; exact Hf.
  - intros (f & Hv & <- & _); apply check_row_params; exact Hv.
Qed.

Lemma check_row_iff_params_witness :
  check_row (params woman_20) = true
  /\ exists f, valid f /\ params f = params man_45
           /\ forall f', params f' = params man_45 -> f' = f.
Proof.
  split.
  - apply (proj2 (check_row_iff_params (params woman_20))).
    exists woman_20; split; [unfold valid; simpl; lia |].
    split; [reflexivity | intros f' Hf; apply params_injective; exact Hf].
  - apply (proj1 (check_row_iff_params (params man_45))).
    vm_compute; reflexivity.
Defined.
